(** * XYalign, [xyalign/bam.py]: the windowed depth and mapping-quality scan

    A shallow embedding of [get_length] and [traverse_bam_fetch], and the
    properties of the window partition, of the per-window aggregation and of
    the failure behaviour of the scan; then of the functions of the module
    that drive samtools, sambamba and repair.sh.

    Conventions of the embedding.
    - Python integers are [Z]; [//] and [%] are [Z.div] and [Z.modulo], which
      round towards minus infinity and give the remainder the sign of the
      divisor exactly as Python does.  A zero divisor raises.
    - Python floats are idealised as exact rationals in lowest terms, with a
      separate not-a-number value.  True division of two integers is the
      rounding of the exact quotient, so two quotients that are equal here are
      equal floats in Python.
    - The pysam handle is a record of its header and of a [fetch] function
      that threads the state of the handle.  Calls to [fetch] and the progress
      lines written by [print] are recorded in a trace.
    - Exceptions are values of [exn]; a computation is a function from the
      world to an outcome and the world it leaves behind. *)

From Stdlib Require Import ZArith QArith Qreduction Lia.
From stdpp Require Import base tactics option list strings pretty gmap.

Local Open Scope Z_scope.

(** ** Exceptions and floats *)

Inductive exn : Type :=
  | KeyError (key : string)
  | ZeroDivisionError
  | TypeError
  | ValueError.

Inductive pyfloat : Type :=
  | NaN
  | Finite (q : Q).

(** [a // b] on integers. *)
Definition floordiv (a b : Z) : exn + Z :=
  if decide (b = 0) then inl ZeroDivisionError else inr (a `div` b).

(** [a % b] on integers. *)
Definition pymod (a b : Z) : exn + Z :=
  if decide (b = 0) then inl ZeroDivisionError else inr (a `mod` b).

(** [a / b] on integers under [from __future__ import division]. *)
Definition truediv (a b : Z) : exn + pyfloat :=
  if decide (b = 0) then inl ZeroDivisionError
  else inr (Finite (Qred (inject_Z a / inject_Z b))).

Definition sum_list (l : list Z) : Z := foldr Z.add 0 l.

(** [np.mean(np.asarray(l))]: not-a-number on the empty array. *)
Definition np_mean (l : list Z) : pyfloat :=
  match l with
  | [] => NaN
  | _ :: _ => Finite (Qred (inject_Z (sum_list l) / inject_Z (Z.of_nat (length l))))
  end.

(** ** Alignment records and the alignment file handle *)

Record AlignedSegment : Type := {
  is_secondary : bool;
  is_supplementary : bool;
  infer_query_length : option Z;   (* [None] when the record has no CIGAR *)
  mapping_quality : Z
}.

Record AlignmentFile (St : Type) : Type := {
  references : list string;
  lengths : list Z;
  fetch : St → string → Z → Z → list AlignedSegment * St
}.
Arguments references {St} _.
Arguments lengths {St} _.
Arguments fetch {St} _ _ _ _ _.

(** What the scan does to the outside: region queries and progress lines. *)
Inductive event : Type :=
  | Fetched (contig : string) (start stop : Z)
  | Printed (window_id num_windows : Z) (chrom : string).

(** ** The result table *)

Module WindowMetrics.
Record t : Type := {
  chrom : string;
  start : Z;
  stop : Z;
  depth : pyfloat;
  mapq : pyfloat
}.
End WindowMetrics.

(** [pd.DataFrame] over five columns: the columns must have one length. *)
Fixpoint DataFrame (chrom : list string) (start stop : list Z)
    (depth mapq : list pyfloat) : exn + list WindowMetrics.t :=
  match chrom, start, stop, depth, mapq with
  | [], [], [], [], [] => inr []
  | c :: chrom, a :: start, b :: stop, d :: depth, m :: mapq =>
      match DataFrame chrom start stop depth mapq with
      | inr rows => inr (WindowMetrics.Build_t c a b d m :: rows)
      | inl e => inl e
      end
  | _, _, _, _, _ => inl ValueError
  end.

(** The dictionary returned by the scan, with its single key. *)
Record results : Type := { windows : list WindowMetrics.t }.

(** [dict(zip(keys, values))]: a later pair overrides an earlier one. *)
Definition dict_zip (keys : list string) (values : list Z) : gmap string Z :=
  foldl (λ d kv, <[kv.1 := kv.2]> d) ∅ (zip keys values).

(** The inner loop of the scan over the records of one window. *)
Fixpoint count_reads (reads : list AlignedSegment) (total_read_length : Z)
    (mapq : list Z) : exn + (Z * list Z) :=
  match reads with
  | [] => inr (total_read_length, mapq)
  | read :: reads =>
      if negb (is_secondary read) then
        if negb (is_supplementary read) then
          match infer_query_length read with
          | Some n =>
              count_reads reads (total_read_length + n)
                (mapq ++ [mapping_quality read])
          | None => inl TypeError
          end
        else count_reads reads total_read_length mapq
      else count_reads reads total_read_length mapq
  end.

(** ** The scan *)

Section Scan.
Context {St : Type}.

Record world : Type := { handle : St; trace : list event }.

Definition M (A : Type) : Type := world → (exn + A) * world.

Definition ret {A} (a : A) : M A := λ w, (inr a, w).
Definition raise {A} (e : exn) : M A := λ w, (inl e, w).
Definition bind {A B} (m : M A) (k : A → M B) : M B :=
  λ w, match m w with
       | (inr a, w') => k a w'
       | (inl e, w') => (inl e, w')
       end.
Definition lift {A} (r : exn + A) : M A :=
  match r with inr a => ret a | inl e => raise e end.

Notation "x <~ m ;; k" := (bind m (λ x, k))
  (at level 100, m at next level, right associativity, only parsing).

Definition emit (e : event) : M unit :=
  λ w, (inr tt, {| handle := handle w; trace := trace w ++ [e] |}).

(** [samfile.fetch(chrom, start, end)], consumed to exhaustion. *)
Definition do_fetch (samfile : AlignmentFile St) (chrom : string)
    (start stop : Z) : M (list AlignedSegment) :=
  λ w, let '(reads, h) := fetch samfile (handle w) chrom start stop in
       (inr reads, {| handle := h; trace := trace w ++ [Fetched chrom start stop] |}).

Definition get_length (bamfile : AlignmentFile St) (chrom : string) : M Z :=
  let lengths := dict_zip (references bamfile) (lengths bamfile) in
  match lengths !! chrom with
  | Some l => ret l
  | None => raise (KeyError chrom)
  end.

Record locals : Type := {
  window_id : Z;
  start : Z;
  end_ : Z;
  start_list : list Z;
  stop_list : list Z;
  depth_list : list pyfloat;
  mapq_list : list pyfloat
}.

(** The cursor update at the end of one iteration. *)
Definition advance (window_size num_windows last_window_len : Z)
    (window_id start end_ : Z) : Z * Z :=
  if decide (window_id = num_windows - 1) then
    (start + window_size, end_ + last_window_len)
  else
    (start + window_size, end_ + window_size).

(** One iteration of [for window in range(0, num_windows)]. *)
Definition window_body (samfile : AlignmentFile St) (chrom : string)
    (window_size num_windows last_window_len : Z) (v : locals) : M locals :=
  reads <~ do_fetch samfile chrom (start v) (end_ v) ;;
  counted <~ lift (count_reads reads 0 []) ;;
  let '(total_read_length, mapq) := counted in
  depth <~ lift (truediv total_read_length window_size) ;;
  let window_id := window_id v + 1 in
  let '(start', end') :=
    advance window_size num_windows last_window_len window_id (start v) (end_ v) in
  _ <~ emit (Printed window_id num_windows chrom) ;;
  ret {| window_id := window_id;
         start := start';
         end_ := end';
         start_list := start_list v ++ [start v];
         stop_list := stop_list v ++ [end_ v];
         depth_list := depth_list v ++ [depth];
         mapq_list := mapq_list v ++ [np_mean mapq] |}.

(** [range(0, num_windows)] runs the body [num_windows] times, and not at all
    when [num_windows] is not positive; the loop variable is not used. *)
Fixpoint for_range (n : nat) (body : locals → M locals) (v : locals) : M locals :=
  match n with
  | O => ret v
  | S n => v' <~ body v ;; for_range n body v'
  end.

Definition traverse_bam_fetch (samfile : AlignmentFile St) (chrom : string)
    (window_size : Z) : M results :=
  chr_len <~ get_length samfile chrom ;;
  q <~ lift (floordiv chr_len window_size) ;;
  let num_windows := q + 1 in
  r <~ lift (pymod chr_len num_windows) ;;
  let last_window_len := if decide (r = 0) then window_size else r in
  let chr_list := replicate (Z.to_nat num_windows) chrom in
  v <~ for_range (Z.to_nat num_windows)
         (window_body samfile chrom window_size num_windows last_window_len)
         {| window_id := 0; start := 0; end_ := window_size;
            start_list := []; stop_list := []; depth_list := []; mapq_list := [] |} ;;
  windows_df <~ lift (DataFrame chr_list (start_list v) (stop_list v)
                        (depth_list v) (mapq_list v)) ;;
  ret {| windows := windows_df |}.

End Scan.

Arguments world : clear implicits.
Arguments M : clear implicits.

(** ** The records that count *)

Definition retained (read : AlignedSegment) : bool :=
  negb (is_secondary read) && negb (is_supplementary read).

Definition primary (reads : list AlignedSegment) : list AlignedSegment :=
  List.filter retained reads.

Definition query_length (read : AlignedSegment) : Z :=
  default 0 (infer_query_length read).

Definition total_length (reads : list AlignedSegment) : Z :=
  sum_list (query_length <$> reads).

(** Every record that counts has an inferred query length. *)
Definition lengths_known (reads : list AlignedSegment) : bool :=
  forallb (λ read, implb (retained read)
                     (bool_decide (is_Some (infer_query_length read)))) reads.

(** ** The window partition in closed form *)

Definition num_windows_of (chr_len window_size : Z) : Z :=
  chr_len `div` window_size + 1.

Definition last_window_len_of (chr_len window_size : Z) : Z :=
  let n := num_windows_of chr_len window_size in
  if decide (chr_len `mod` n = 0) then window_size else chr_len `mod` n.

(** The value of [end] when window [j] of [N] is fetched. *)
Definition window_stop (W N last j : Z) : Z :=
  if decide (0 < j ∧ j = N - 1) then j * W + last else (j + 1) * W.

Definition window_bounds (W N last j : Z) : Z * Z :=
  (j * W, window_stop W N last j).

Definition partition (chr_len window_size : Z) : list (Z * Z) :=
  let n := num_windows_of chr_len window_size in
  window_bounds window_size n (last_window_len_of chr_len window_size) <$> seqZ 0 n.

(** The two metrics of one window, from the records fetched for it. *)
Definition window_depth (window_size : Z) (reads : list AlignedSegment) : pyfloat :=
  Finite (Qred (inject_Z (total_length (primary reads)) / inject_Z window_size)).

Definition window_mapq (reads : list AlignedSegment) : pyfloat :=
  np_mean (mapping_quality <$> primary reads).

Definition row_of (chrom : string) (window_size : Z)
    (x : (Z * Z) * list AlignedSegment) : WindowMetrics.t :=
  {| WindowMetrics.chrom := chrom;
     WindowMetrics.start := x.1.1;
     WindowMetrics.stop := x.1.2;
     WindowMetrics.depth := window_depth window_size x.2;
     WindowMetrics.mapq := window_mapq x.2 |}.

(** ** The records met by a scan, and the table they determine *)

Section Chain.
Context {St : Type} (samfile : AlignmentFile St) (chrom : string).

(** The records the handle yields for a list of windows queried in turn. *)
Fixpoint fetch_all (ws : list (Z * Z)) (h : St) : list (list AlignedSegment) * St :=
  match ws with
  | [] => ([], h)
  | ab :: ws =>
      let '(reads, h1) := fetch samfile h chrom ab.1 ab.2 in
      let '(bs, h2) := fetch_all ws h1 in
      (reads :: bs, h2)
  end.

(** The trace of a scan over windows [j], [j + 1], ... of [N]. *)
Fixpoint scan_trace (N j : Z) (ws : list (Z * Z)) : list event :=
  match ws with
  | [] => []
  | ab :: ws =>
      Fetched chrom ab.1 ab.2 :: Printed (j + 1) N chrom :: scan_trace N (j + 1) ws
  end.

(** The records fetched for the successive windows of the scan. *)
Definition fetched (chr_len window_size : Z) (h : St) : list (list AlignedSegment) :=
  (fetch_all (partition chr_len window_size) h).1.

Definition table (chr_len window_size : Z) (h : St) : list WindowMetrics.t :=
  row_of chrom window_size <$>
    zip (partition chr_len window_size) (fetched chr_len window_size h).

(** The handle answers a query the same way whatever was asked before. *)
Definition deterministic : Prop :=
  ∀ h1 h2 c a b, (fetch samfile h1 c a b).1 = (fetch samfile h2 c a b).1.

(** The outcome of a computation does not depend on the world it starts in. *)
Definition stateless {A} (m : M St A) : Prop :=
  ∀ w1 w2 : world St, (m w1).1 = (m w2).1.

End Chain.

(** ** Sample alignment files

    The handle of a sample file counts the queries made on it. *)

Definition primary_read (mapq len : Z) : AlignedSegment :=
  {| is_secondary := false; is_supplementary := false;
     infer_query_length := Some len; mapping_quality := mapq |}.

Definition secondary_read : AlignedSegment :=
  {| is_secondary := true; is_supplementary := false;
     infer_query_length := None; mapping_quality := 0 |}.

Definition supplementary_read : AlignedSegment :=
  {| is_secondary := false; is_supplementary := true;
     infer_query_length := Some 50; mapping_quality := 60 |}.

(** A primary record without a CIGAR string. *)
Definition unaligned_read : AlignedSegment :=
  {| is_secondary := false; is_supplementary := false;
     infer_query_length := None; mapping_quality := 0 |}.

Definition sample_file : AlignmentFile nat :=
  {| references := ["chr1"; "chrX"];
     lengths := [5; 1000];
     fetch := λ h c a b,
       (if decide (c = "chrX" ∧ a = 300) then
          [primary_read 30 100; secondary_read; primary_read 30 100]
        else if decide (c = "chrX" ∧ a = 600) then
          [secondary_read; supplementary_read]
        else [],
        S h) |}.

Definition broken_file : AlignmentFile nat :=
  {| references := ["chr1"; "chrX"];
     lengths := [5; 1000];
     fetch := λ h c a b,
       (if decide (a = 300) then
          [primary_read 30 100; unaligned_read; primary_read 30 100]
        else [],
        S h) |}.

Definition silent_file : AlignmentFile nat :=
  {| references := ["chr1"; "chrX"];
     lengths := [5; 1000];
     fetch := λ h c a b, ([], S h) |}.

Definition fresh : world nat := {| handle := 0%nat; trace := [] |}.


(** ** The functions that drive external tools

    What these functions do to the outside is recorded as a list of actions:
    files opened and written, processes started, lines printed.  Starting a
    process and opening a file are taken to succeed; the exit status of a
    process is discarded by the code and is not part of the model.  What lies
    outside the program is gathered in [env]: the reference names pysam reads
    from an alignment file, the lines found in a file when it is read, and the
    builtin [str.strip], whose set of whitespace characters depends on the
    Python version.  Paths, names and regions are strings, [threads] is an
    integer, and the [@PG] dictionary holds a list of strings under ['CL'] and
    strings under ['ID'] and ['VN'], as the docstrings say. *)

Module Tools.

Inductive exn : Type :=
  | KeyError (key : string)
  | NameError (name : string)
  | UnboundLocalError (name : string).

Inductive action : Type :=
  | Open (path mode : string)
  | Write (path data : string)
  | Call (argv : list string) (stdout : option string)
  | ShellCall (command_line : string)
  | Print (line : string).

Record env : Type := {
  references_of : string → list string;
  read_lines : string → list string;
  str_strip : string → string
}.

Record pg_header : Type := {
  CL : option (list string);
  ID : option string;
  VN : option string
}.

Definition T (A : Type) : Type := list action → (exn + A) * list action.

Definition ret {A} (a : A) : T A := λ tr, (inr a, tr).
Definition raise {A} (e : exn) : T A := λ tr, (inl e, tr).
Definition bind {A B} (m : T A) (k : A → T B) : T B :=
  λ tr, match m tr with
        | (inr a, tr') => k a tr'
        | (inl e, tr') => (inl e, tr')
        end.
Definition emit (a : action) : T unit := λ tr, (inr tt, tr ++ [a]).

Local Notation "x <~ m ;; k" := (bind m (λ x, k))
  (at level 100, m at next level, right associativity, only parsing).

Fixpoint for_each {A} (l : list A) (body : A → T unit) : T unit :=
  match l with
  | [] => ret tt
  | x :: l => _ <~ body x ;; for_each l body
  end.

(** The names bound at module level: the imports of lines 3 to 7 and the
    functions the module defines. *)
Definition module_globals : list string :=
  ["division"; "print_function"; "np"; "pd"; "subprocess";
   "get_length"; "traverse_bam_fetch"; "bam_to_fastq";
   "switch_sex_chromosomes_bam_sambamba_output_temps"; "sambamba_merge";
   "switch_sex_chromosomes_bam_sambamba"; "switch_sex_chromosomes_bam"].

(** Reading a name that no function binds. *)
Definition global (name : string) : T unit :=
  if bool_decide (name ∈ module_globals) then ret tt else raise (NameError name).

(** [d[key]] on the [@PG] dictionary. *)
Definition getitem {A} (key : string) (value : option A) : T A :=
  match value with
  | Some a => ret a
  | None => raise (KeyError key)
  end.

(** Reading a local variable that may not have been assigned. *)
Definition local {A} (name : string) (value : option A) : T A :=
  match value with
  | Some a => ret a
  | None => raise (UnboundLocalError name)
  end.

Definition dquote : string := String (Ascii.ascii_of_nat 34) EmptyString.
Definition tab : string := String (Ascii.ascii_of_nat 9) EmptyString.
Definition newline : string := String (Ascii.ascii_of_nat 10) EmptyString.

(** [sep.join(l)] *)
Definition join (sep : string) (l : list string) : string := String.concat sep l.

(** [repr] of the awk program of line 128, which holds no quote and no
    backslash. *)
Definition awk_id_fields : string :=
  "'{for(i=1;i<=NF;i++){if (substr($i,1,2) ~ /ID/){print $i}}}'".

Definition bam_to_fastq (os : env) (samtools_path repairsh_path bamfile : string)
    (single : bool) (output_directory output_prefix : string)
    (regions : list string) : T (list string) :=
  let rg_list := output_directory +:+ "/" +:+ "full_rg.list" in
  let command_line :=
    samtools_path +:+ " view -H " +:+ bamfile +:+ " | awk '$1==" +:+ dquote +:+ "@RG"
    +:+ dquote +:+ "' | awk " +:+ awk_id_fields +:+ " | cut -d':' -f 2 > " +:+ rg_list in
  _ <~ global "subprocess" ;;
  _ <~ emit (ShellCall command_line) ;;
  let rg_header_lines := output_directory +:+ "/" +:+ "header_lines_rg.list" in
  let command_line :=
    samtools_path +:+ " view -H " +:+ bamfile +:+ " | awk '$1==" +:+ dquote +:+ "@RG"
    +:+ dquote +:+ "' > " +:+ rg_header_lines in
  _ <~ global "subprocess" ;;
  _ <~ emit (ShellCall command_line) ;;
  _ <~ emit (Open rg_list "r") ;;
  let f := read_lines os rg_list in
  let out_rg_table := output_directory +:+ "/" +:+ "rg_fastq_key.list" in
  _ <~ emit (Open out_rg_table "w") ;;
  _ <~ for_each f (λ line,
    let rg := str_strip os line in
    if bool_decide (rg ≠ "") then
      _ <~ emit (Open (output_directory +:+ "/" +:+ rg +:+ ".txt") "w") ;;
      _ <~ emit (Write (output_directory +:+ "/" +:+ rg +:+ ".txt") rg) ;;
      if negb single then
        let command_line :=
          samtools_path +:+ " view -b " +:+ bamfile +:+ " " +:+ join " " regions
          +:+ " | " +:+ samtools_path +:+ " bam2fq -1 " +:+ output_directory
          +:+ "/temp_1.fastq -2 " +:+ output_directory +:+ "/temp_2.fastq -t -n - " in
        _ <~ global "subprocess" ;;
        _ <~ emit (ShellCall command_line) ;;
        let command_line :=
          repairsh_path
          +:+ " in1=" +:+ (output_directory +:+ "/temp_1.fastq")
          +:+ " in2=" +:+ (output_directory +:+ "/temp_2.fastq")
          +:+ " out1="
          +:+ (output_directory +:+ "/" +:+ output_prefix +:+ "_" +:+ rg +:+ "_1.fastq")
          +:+ " out2="
          +:+ (output_directory +:+ "/" +:+ output_prefix +:+ "_" +:+ rg +:+ "_2.fastq")
          +:+ " overwrite=true" in
        _ <~ global "subprocess" ;;
        _ <~ emit (ShellCall command_line) ;;
        emit (Write out_rg_table
                (rg +:+ tab
                 +:+ (output_directory +:+ "/" +:+ output_prefix +:+ "_" +:+ rg
                      +:+ "_1.fastq")
                 +:+ tab
                 +:+ (output_directory +:+ "/" +:+ output_prefix +:+ "_" +:+ rg
                      +:+ "_2.fastq")
                 +:+ newline))
      else
        let command_line :=
          samtools_path +:+ " view -b " +:+ bamfile +:+ " " +:+ join " " regions
          +:+ " | " +:+ samtools_path +:+ " bam2fq -t -n - > " +:+ output_directory
          +:+ "/temp.fastq" in
        _ <~ global "subprocess" ;;
        _ <~ emit (ShellCall command_line) ;;
        (* the repair command is built here and not run *)
        let command_line :=
          repairsh_path +:+ " in=" +:+ (output_directory +:+ "/temp.fastq")
          +:+ " out="
          +:+ (output_directory +:+ "/" +:+ output_prefix +:+ "_" +:+ rg +:+ ".fastq")
          +:+ " overwrite=true" in
        emit (Write out_rg_table
                (rg +:+ tab
                 +:+ (output_directory +:+ "/" +:+ output_prefix +:+ "_" +:+ rg
                      +:+ ".fastq")
                 +:+ newline))
    else ret tt) ;;
  ret [out_rg_table; rg_header_lines].

(** The [@PG] line of the two sambamba variants; [None] is the local
    variable [pg_line] left unassigned. *)
Definition pg_line_of (pg_header_dict : pg_header) (cl_string : string)
    : T (option (list string)) :=
  if bool_decide (is_Some (VN pg_header_dict)) then
    id <~ getitem "ID" (ID pg_header_dict) ;;
    vn <~ getitem "VN" (VN pg_header_dict) ;;
    ret (Some ["@PG"; "ID:" +:+ id; "VN:" +:+ vn; "CL:" +:+ cl_string])
  else ret None.

Definition non_sex (sex_chroms references : list string) : list string :=
  List.filter (λ x, bool_decide (x ∉ sex_chroms)) references.

Definition switch_sex_chromosomes_bam_sambamba_output_temps (os : env)
    (samtools_path sambamba_path bam_orig bam_new : string)
    (sex_chroms : list string) (output_directory output_prefix : string)
    (threads : Z) (pg_header_dict : pg_header) (cram : bool) : T (option string) :=
  _ <~ emit (Open (output_directory +:+ "/header.sam") "w") ;;
  _ <~ global "subprocess" ;;
  _ <~ emit (Call [samtools_path; "view"; "-H"; bam_orig]
               (Some (output_directory +:+ "/header.sam"))) ;;
  _ <~ emit (Open (output_directory +:+ "/reheadered.temp.new.bam") "w") ;;
  _ <~ global "subprocess" ;;
  _ <~ emit (Call [samtools_path; "reheader"; "-P";
                   output_directory +:+ "/header.sam"; bam_new]
               (Some (output_directory +:+ "/reheadered.temp.new.bam"))) ;;
  _ <~ global "subprocess" ;;
  _ <~ emit (Call [samtools_path; "index";
                   output_directory +:+ "/reheadered.temp.new.bam"] None) ;;
  cl <~ getitem "CL" (CL pg_header_dict) ;;
  let cl_string := join " " cl in
  pg_line <~ pg_line_of pg_header_dict cl_string ;;
  _ <~ global "subprocess" ;;
  pg <~ local "pg_line" pg_line ;;
  _ <~ emit (ShellCall ("echo '" +:+ join tab pg +:+ "' >> " +:+ output_directory
                        +:+ "/header.sam")) ;;
  if negb cram then
    _ <~ global "pysam" ;;
    let non_sex_scaffolds := non_sex sex_chroms (references_of os bam_orig) in
    let command_line :=
      sambamba_path +:+ " view -h -t " +:+ pretty threads +:+ " -f bam -o "
      +:+ output_directory +:+ "/temp.nosexchr.bam " +:+ bam_orig +:+ " "
      +:+ join " " non_sex_scaffolds in
    _ <~ emit (Print ("Removing sex chromosomes with command: " +:+ command_line)) ;;
    _ <~ global "subprocess" ;;
    _ <~ emit (ShellCall command_line) ;;
    _ <~ global "subprocess" ;;
    _ <~ emit (Call [samtools_path; "index";
                     output_directory +:+ "/temp.nosexchr.bam"] None) ;;
    _ <~ global "subprocess" ;;
    _ <~ emit (Call [samtools_path; "merge"; "-@"; pretty threads; "-h";
                     output_directory +:+ "/header.sam"; "-f";
                     output_directory +:+ "/" +:+ output_prefix +:+ ".merged.bam";
                     output_directory +:+ "/temp.nosexchr.bam"; bam_new] None) ;;
    _ <~ global "subprocess" ;;
    _ <~ emit (Call [samtools_path; "index";
                     output_directory +:+ "/" +:+ output_prefix +:+ ".merged.bam"]
                 None) ;;
    ret (Some (output_directory +:+ "/" +:+ output_prefix +:+ ".merged.bam"))
  else
    _ <~ emit (Print "This function does not currently handle cram files") ;;
    ret None.

Definition sambamba_merge (sambamba_path : string) (bam_list : list string)
    (output_prefix : string) (threads : Z) : T string :=
  _ <~ global "subprocess" ;;
  _ <~ emit (Call [sambamba_path; "merge"; "-t"; pretty threads; output_prefix;
                   join " " bam_list] None) ;;
  _ <~ global "subprocess" ;;
  _ <~ emit (Call [sambamba_path; "index"; output_prefix +:+ ".merged.bam"] None) ;;
  ret (output_prefix +:+ ".merged.bam").

Definition switch_sex_chromosomes_bam_sambamba (os : env)
    (samtools_path sambamba_path bam_orig bam_new : string)
    (sex_chroms : list string) (output_directory output_prefix : string)
    (threads : Z) (pg_header_dict : pg_header) (cram : bool) : T string :=
  _ <~ emit (Open (output_directory +:+ "/header.sam") "w") ;;
  _ <~ global "subprocess" ;;
  _ <~ emit (Call [samtools_path; "view"; "-H"; bam_orig]
               (Some (output_directory +:+ "/header.sam"))) ;;
  _ <~ emit (Open (output_directory +:+ "/reheadered.temp.new.bam") "w") ;;
  _ <~ global "subprocess" ;;
  _ <~ emit (Call [samtools_path; "reheader"; "-P";
                   output_directory +:+ "/header.sam"; bam_new]
               (Some (output_directory +:+ "/reheadered.temp.new.bam"))) ;;
  cl <~ getitem "CL" (CL pg_header_dict) ;;
  let cl_string := join " " cl in
  pg_line <~ pg_line_of pg_header_dict cl_string ;;
  _ <~ global "subprocess" ;;
  pg <~ local "pg_line" pg_line ;;
  _ <~ emit (ShellCall ("echo '" +:+ join tab pg +:+ "' >> " +:+ output_directory
                        +:+ "/header.sam")) ;;
  if negb cram then
    _ <~ global "pysam" ;;
    let non_sex_scaffolds := non_sex sex_chroms (references_of os bam_orig) in
    _ <~ global "subprocess" ;;
    _ <~ emit (ShellCall
                 (sambamba_path +:+ " view -h -t " +:+ pretty threads
                  +:+ " -f bam -o /dev/stdout " +:+ bam_orig +:+ " "
                  +:+ join " " non_sex_scaffolds +:+ " | " +:+ sambamba_path
                  +:+ " merge -t " +:+ pretty threads +:+ " " +:+ output_directory
                  +:+ "/" +:+ output_prefix +:+ ".merged.bam /dev/stdin " +:+ bam_new)) ;;
    ret (output_directory +:+ "/" +:+ output_prefix +:+ ".merged.bam")
  else
    _ <~ global "pysam" ;;
    let non_sex_scaffolds := non_sex sex_chroms (references_of os bam_orig) in
    _ <~ emit (Open (output_directory +:+ "/no_sex.cram") "w") ;;
    _ <~ global "subprocess" ;;
    _ <~ emit (Call [samtools_path; "view"; "-h"; "-b"; bam_orig;
                     join " " non_sex_scaffolds]
                 (Some (output_directory +:+ "/no_sex.cram"))) ;;
    _ <~ global "subprocess" ;;
    _ <~ emit (Call [samtools_path; "index"; output_directory +:+ "/no_sex.cram"]
                 None) ;;
    _ <~ global "subprocess" ;;
    _ <~ emit (Call [samtools_path; "merge"; "-h";
                     output_directory +:+ "/header.sam";
                     output_directory +:+ "/" +:+ output_prefix +:+ ".cram";
                     output_directory +:+ "/no_sex.cram"; bam_new] None) ;;
    _ <~ global "subprocess" ;;
    _ <~ emit (Call [samtools_path; "index";
                     output_directory +:+ "/" +:+ output_prefix +:+ ".cram"] None) ;;
    ret (output_directory +:+ "/" +:+ output_prefix +:+ ".cram").

Definition switch_sex_chromosomes_bam (os : env)
    (samtools_path bam_orig bam_new : string) (sex_chroms : list string)
    (output_directory output_prefix : string) (cram : bool) : T string :=
  _ <~ global "subprocess" ;;
  _ <~ emit (ShellCall (samtools_path +:+ " view -H " +:+ bam_orig +:+ " > "
                        +:+ output_directory +:+ "/header.sam")) ;;
  if negb cram then
    _ <~ global "pysam" ;;
    let non_sex_scaffolds := non_sex sex_chroms (references_of os bam_orig) in
    _ <~ global "subprocess" ;;
    _ <~ emit (ShellCall (samtools_path +:+ " view -h -b " +:+ bam_orig +:+ " "
                          +:+ join " " non_sex_scaffolds +:+ " > "
                          +:+ output_directory +:+ "/no_sex.bam")) ;;
    _ <~ global "subprocess" ;;
    _ <~ emit (ShellCall (samtools_path +:+ " index " +:+ output_directory
                          +:+ "/no_sex.bam")) ;;
    _ <~ global "subprocess" ;;
    _ <~ emit (ShellCall (samtools_path +:+ " merge -h " +:+ output_directory
                          +:+ "/header.sam " +:+ output_directory +:+ "/"
                          +:+ output_prefix +:+ ".bam " +:+ output_directory
                          +:+ "/no_sex.bam " +:+ bam_new)) ;;
    _ <~ global "subprocess" ;;
    _ <~ emit (ShellCall (samtools_path +:+ " index " +:+ output_directory +:+ "/"
                          +:+ output_prefix +:+ ".bam")) ;;
    ret (output_directory +:+ "/" +:+ output_prefix +:+ ".bam")
  else
    _ <~ global "pysam" ;;
    let non_sex_scaffolds := non_sex sex_chroms (references_of os bam_orig) in
    _ <~ global "subprocess" ;;
    _ <~ emit (ShellCall (samtools_path +:+ " view -h -b " +:+ bam_orig +:+ " "
                          +:+ join " " non_sex_scaffolds +:+ " > "
                          +:+ output_directory +:+ "/no_sex.cram")) ;;
    _ <~ global "subprocess" ;;
    _ <~ emit (ShellCall (samtools_path +:+ " index " +:+ output_directory
                          +:+ "/no_sex.cram")) ;;
    _ <~ global "subprocess" ;;
    _ <~ emit (ShellCall (samtools_path +:+ " merge -h " +:+ output_directory
                          +:+ "/header.sam " +:+ output_directory +:+ "/"
                          +:+ output_prefix +:+ ".cram " +:+ output_directory
                          +:+ "/no_sex.cram " +:+ bam_new)) ;;
    _ <~ global "subprocess" ;;
    _ <~ emit (ShellCall (samtools_path +:+ " index " +:+ output_directory +:+ "/"
                          +:+ output_prefix +:+ ".cram")) ;;
    ret (output_directory +:+ "/" +:+ output_prefix +:+ ".cram").

(** The command lines handed to the shell, in order. *)
Definition shell_commands (tr : list action) : list string :=
  omap (λ a, match a with ShellCall c => Some c | _ => None end) tr.

(** The writes to files, as pairs of a path and the text written, in order. *)
Definition writes (tr : list action) : list (string * string) :=
  omap (λ a, match a with Write p data => Some (p, data) | _ => None end) tr.

(** What one read group adds to the trace of [bam_to_fastq]. *)
Definition read_group_actions (samtools_path repairsh_path bamfile : string)
    (single : bool) (output_directory output_prefix : string)
    (regions : list string) (rg : string) : list action :=
  let table := output_directory +:+ "/" +:+ "rg_fastq_key.list" in
  let name := output_directory +:+ "/" +:+ rg +:+ ".txt" in
  let fastq suffix :=
    output_directory +:+ "/" +:+ output_prefix +:+ "_" +:+ rg +:+ suffix in
  [Open name "w"; Write name rg] ++
  if single then
    [ShellCall (samtools_path +:+ " view -b " +:+ bamfile +:+ " " +:+ join " " regions
                +:+ " | " +:+ samtools_path +:+ " bam2fq -t -n - > "
                +:+ output_directory +:+ "/temp.fastq");
     Write table (rg +:+ tab +:+ fastq ".fastq" +:+ newline)]
  else
    [ShellCall (samtools_path +:+ " view -b " +:+ bamfile +:+ " " +:+ join " " regions
                +:+ " | " +:+ samtools_path +:+ " bam2fq -1 " +:+ output_directory
                +:+ "/temp_1.fastq -2 " +:+ output_directory +:+ "/temp_2.fastq -t -n - ");
     ShellCall (repairsh_path
                +:+ " in1=" +:+ (output_directory +:+ "/temp_1.fastq")
                +:+ " in2=" +:+ (output_directory +:+ "/temp_2.fastq")
                +:+ " out1=" +:+ fastq "_1.fastq"
                +:+ " out2=" +:+ fastq "_2.fastq"
                +:+ " overwrite=true");
     Write table (rg +:+ tab +:+ fastq "_1.fastq" +:+ tab +:+ fastq "_2.fastq"
                  +:+ newline)].

(** The read groups [bam_to_fastq] works on: the lines of the list of read
    groups, stripped, without the empty ones. *)
Definition read_groups (os : env) (output_directory : string) : list string :=
  List.filter (λ rg, bool_decide (rg ≠ ""))
    (str_strip os <$> read_lines os (output_directory +:+ "/" +:+ "full_rg.list")).

End Tools.

(** ** A sample environment for the tools *)

(** Strips the ASCII whitespace characters (codes 9 to 13 and 32), which
    every version of [str.strip] removes. *)
Definition ascii_space (c : Ascii.ascii) : bool :=
  let n := Ascii.nat_of_ascii c in
  ((9 <=? n)%nat && (n <=? 13)%nat) || (n =? 32)%nat.

Fixpoint ascii_lstrip (s : string) : string :=
  match s with
  | String c s' => if ascii_space c then ascii_lstrip s' else s
  | EmptyString => EmptyString
  end.

Fixpoint ascii_rstrip (s : string) : string :=
  match s with
  | String c s' =>
      match ascii_rstrip s' with
      | EmptyString => if ascii_space c then EmptyString else String c EmptyString
      | r => String c r
      end
  | EmptyString => EmptyString
  end.

Definition ascii_strip (s : string) : string := ascii_rstrip (ascii_lstrip s).

Definition sample_env : Tools.env :=
  {| Tools.references_of := λ _, ["chr1"; "chrX"; "chrY"];
     Tools.read_lines := λ _, ["lane1" +:+ Tools.newline; Tools.newline;
                               "  lane2 " +:+ Tools.newline];
     Tools.str_strip := ascii_strip |}.

Definition full_pg_header : Tools.pg_header :=
  {| Tools.CL := Some ["xyalign"; "--remap"];
     Tools.ID := Some "XYalign";
     Tools.VN := Some "1.0" |}.

(** ** The dictionary of reference lengths *)

Lemma foldl_insert_absent (kvs : list (string * Z)) (d : gmap string Z) k :
  k ∉ kvs.*1 → foldl (λ d kv, <[kv.1 := kv.2]> d) d kvs !! k = d !! k.
Proof.
  revert d. induction kvs as [|[k' v'] kvs IH]; intros d Hk; [done|].
  cbn in Hk. apply not_elem_of_cons in Hk as [Hne Hk].
  cbn. rewrite IH by done. by rewrite lookup_insert_ne.
Qed.

Lemma foldl_insert_present (kvs : list (string * Z)) (d : gmap string Z) k v :
  NoDup kvs.*1 → (k, v) ∈ kvs →
  foldl (λ d kv, <[kv.1 := kv.2]> d) d kvs !! k = Some v.
Proof.
  revert d. induction kvs as [|[k' v'] kvs IH]; intros d Hnd Hin.
  - by apply elem_of_nil in Hin.
  - cbn in Hnd. apply NoDup_cons in Hnd as [Hfresh Hnd].
    apply elem_of_cons in Hin as [Heq|Hin]; cbn.
    + injection Heq as -> ->.
      rewrite foldl_insert_absent by done. apply lookup_insert_eq.
    + by apply IH.
Qed.

Lemma dict_zip_absent keys values k :
  k ∉ keys → dict_zip keys values !! k = None.
Proof.
  intros Hk. unfold dict_zip. rewrite foldl_insert_absent; [apply lookup_empty|].
  intros Hin. apply Hk. apply list_elem_of_fmap in Hin as [[k' v'] [-> Hin]].
  apply elem_of_zip_l in Hin. done.
Qed.

Lemma NoDup_zip_keys (keys : list string) (values : list Z) :
  NoDup keys → NoDup (zip keys values).*1.
Proof.
  intros Hnd. revert values.
  induction Hnd as [|k keys Hfresh Hnd IH]; intros [|v values]; cbn;
    try constructor; [|apply IH].
  intros Hin. apply Hfresh.
  apply list_elem_of_fmap in Hin as [[k' v'] [-> Hin]].
  by apply elem_of_zip_l in Hin.
Qed.

Lemma dict_zip_present keys values (i : nat) k v :
  NoDup keys → keys !! i = Some k → values !! i = Some v →
  dict_zip keys values !! k = Some v.
Proof.
  intros Hnd Hk Hv. unfold dict_zip.
  apply foldl_insert_present; [by apply NoDup_zip_keys|].
  apply list_elem_of_lookup. exists i.
  rewrite lookup_zip_with, Hk, Hv. done.
Qed.

Lemma foldl_insert_lookup (kvs : list (string * Z)) (d : gmap string Z) k v :
  foldl (λ d kv, <[kv.1 := kv.2]> d) d kvs !! k = Some v →
  (k, v) ∈ kvs ∨ d !! k = Some v.
Proof.
  revert d. induction kvs as [|[k' v'] kvs IH]; intros d Hlook; [by right|].
  cbn in Hlook. apply IH in Hlook as [Hin|Hd]; [left; by right|].
  apply lookup_insert_Some in Hd as [[<- <-]|[_ Hd]]; [left; by left|by right].
Qed.

Lemma foldl_insert_is_Some (kvs : list (string * Z)) (d : gmap string Z) k :
  k ∈ kvs.*1 → is_Some (foldl (λ d kv, <[kv.1 := kv.2]> d) d kvs !! k).
Proof.
  revert d. induction kvs as [|[k' v'] kvs IH]; intros d Hin.
  - by apply elem_of_nil in Hin.
  - cbn. destruct (decide (k ∈ kvs.*1)) as [Hlater|Hlast]; [by apply IH|].
    cbn in Hin. apply elem_of_cons in Hin as [->|Hin]; [|done].
    rewrite foldl_insert_absent by done. cbn. rewrite lookup_insert_eq. by eexists.
Qed.

Lemma dict_zip_recorded keys values (i : nat) k v0 :
  keys !! i = Some k → values !! i = Some v0 →
  ∃ v, dict_zip keys values !! k = Some v ∧
       ∃ j : nat, keys !! j = Some k ∧ values !! j = Some v.
Proof.
  intros Hk Hv.
  assert (Hin : (k, v0) ∈ zip keys values).
  { apply list_elem_of_lookup. exists i. by rewrite lookup_zip_with, Hk, Hv. }
  destruct (foldl_insert_is_Some (zip keys values) ∅ k) as [v Hlook].
  { apply list_elem_of_fmap. by exists (k, v0). }
  exists v. split; [exact Hlook|].
  apply foldl_insert_lookup in Hlook as [Hzip|Hempty]; [|by rewrite lookup_empty in Hempty].
  apply list_elem_of_lookup in Hzip as [j Hj].
  apply lookup_zip_with_Some in Hj as (k' & v' & [= <- <-] & Hkj & Hvj). eauto.
Qed.

(** ** Floats *)

Lemma Qred_inject_Z (z : Z) : Qred (inject_Z z) = inject_Z z.
Proof.
  unfold Qred, inject_Z.
  generalize (Z.ggcd_gcd z 1) (Z.ggcd_correct_divisors z 1).
  destruct (Z.ggcd z 1) as [g [a b]]. cbn.
  rewrite Z.gcd_1_r. intros -> [Ha Hb].
  rewrite Z.mul_1_l in Ha, Hb. by subst.
Qed.

Lemma Qred_div_mul (k q : Z) :
  0 < k → Qred (inject_Z (k * q) / inject_Z k) = inject_Z q.
Proof.
  intros Hk. transitivity (Qred (inject_Z q)); [|apply Qred_inject_Z].
  apply Qred_complete. destruct k as [|p|p]; try lia.
  unfold Qeq, Qdiv, Qmult, Qinv, inject_Z. cbn [Qnum Qden]. lia.
Qed.

Lemma truediv_nonzero (a b : Z) :
  b ≠ 0 → truediv a b = inr (Finite (Qred (inject_Z a / inject_Z b))).
Proof. intros Hb. unfold truediv. by destruct (decide (b = 0)). Qed.

Lemma truediv_zero (b : Z) : b ≠ 0 → truediv 0 b = inr (Finite 0).
Proof.
  intros Hb. by rewrite truediv_nonzero.
Qed.

Lemma sum_list_replicate (k : nat) (q : Z) :
  sum_list (replicate k q) = Z.of_nat k * q.
Proof.
  induction k as [|k IH]; cbn -[Z.of_nat]; [done|].
  fold (sum_list (replicate k q)). lia.
Qed.

Lemma np_mean_replicate (k : nat) (q : Z) :
  (0 < k)%nat → np_mean (replicate k q) = Finite (inject_Z q).
Proof.
  intros Hk. destruct k as [|k]; [lia|].
  change (np_mean (replicate (S k) q)) with
    (Finite (Qred (inject_Z (sum_list (replicate (S k) q))
                   / inject_Z (Z.of_nat (length (replicate (S k) q)))))).
  rewrite sum_list_replicate, length_replicate, Qred_div_mul by lia. done.
Qed.

(** ** The inner loop *)

Lemma count_reads_cons read reads total mapq :
  count_reads (read :: reads) total mapq =
    if retained read then
      match infer_query_length read with
      | Some n => count_reads reads (total + n) (mapq ++ [mapping_quality read])
      | None => inl TypeError
      end
    else count_reads reads total mapq.
Proof.
  cbn. unfold retained.
  by destruct (is_secondary read), (is_supplementary read).
Qed.

Lemma primary_cons read reads :
  primary (read :: reads) =
    if retained read then read :: primary reads else primary reads.
Proof. done. Qed.

Lemma lengths_known_cons read reads :
  lengths_known (read :: reads) =
    implb (retained read) (bool_decide (is_Some (infer_query_length read)))
    && lengths_known reads.
Proof. done. Qed.

Lemma count_reads_primary reads total mapq :
  count_reads reads total mapq = count_reads (primary reads) total mapq.
Proof.
  revert total mapq. induction reads as [|read reads IH]; intros total mapq; [done|].
  rewrite primary_cons, count_reads_cons.
  destruct (retained read) eqn:Hr; [|apply IH].
  rewrite count_reads_cons, Hr.
  destruct (infer_query_length read); [apply IH|done].
Qed.

Lemma count_reads_known reads total mapq :
  lengths_known reads = true →
  count_reads reads total mapq =
    inr (total + total_length (primary reads),
         mapq ++ (mapping_quality <$> primary reads)).
Proof.
  revert total mapq. induction reads as [|read reads IH]; intros total mapq Hk.
  - cbn. by rewrite Z.add_0_r, app_nil_r.
  - rewrite lengths_known_cons in Hk. apply andb_prop in Hk as [Hr Hk].
    rewrite primary_cons, count_reads_cons.
    destruct (retained read); [|by apply IH].
    destruct (infer_query_length read) as [n|] eqn:Hn; [|done].
    rewrite IH by done. f_equal. f_equal.
    + unfold total_length. rewrite fmap_cons. unfold query_length at 2.
      rewrite Hn. unfold sum_list. cbn [foldr default id]. lia.
    + by rewrite fmap_cons, <- app_assoc.
Qed.

Lemma count_reads_unknown reads total mapq :
  lengths_known reads = false → count_reads reads total mapq = inl TypeError.
Proof.
  revert total mapq. induction reads as [|read reads IH]; intros total mapq Hk; [done|].
  rewrite lengths_known_cons in Hk. apply andb_false_iff in Hk.
  rewrite count_reads_cons.
  destruct (retained read); cbn in Hk.
  - destruct (infer_query_length read) as [n|]; [|done].
    destruct Hk as [?|Hk]; [done|by apply IH].
  - destruct Hk as [?|Hk]; [done|by apply IH].
Qed.

Lemma lengths_known_false reads read :
  read ∈ reads → retained read = true → infer_query_length read = None →
  lengths_known reads = false.
Proof.
  intros Hin Hr Hn. apply not_true_is_false. intros Hk.
  unfold lengths_known in Hk. rewrite forallb_forall in Hk.
  apply list_elem_of_In in Hin. specialize (Hk _ Hin).
  rewrite Hr, Hn in Hk. done.
Qed.

Lemma primary_nil_known reads : primary reads = [] → lengths_known reads = true.
Proof.
  induction reads as [|read reads IH]; [done|]. cbn.
  destruct (retained read); [done|]. intros H. cbn. by apply IH.
Qed.

Lemma DataFrame_fmap {X} (c : X → string) (a b : X → Z) (d m : X → pyfloat) xs :
  DataFrame (c <$> xs) (a <$> xs) (b <$> xs) (d <$> xs) (m <$> xs) =
    inr ((λ x, WindowMetrics.Build_t (c x) (a x) (b x) (d x) (m x)) <$> xs).
Proof. induction xs as [|x xs IH]; [done|]. cbn. by rewrite IH. Qed.

(** ** The outer loop *)

Section Run.
Context {St : Type} (samfile : AlignmentFile St) (chrom : string).

Lemma fetch_all_length ws h : length (fetch_all samfile chrom ws h).1 = length ws.
Proof.
  revert h. induction ws as [|ab ws IH]; intros h; [done|]. cbn.
  destruct (fetch samfile h chrom ab.1 ab.2) as [reads h1].
  specialize (IH h1). destruct (fetch_all samfile chrom ws h1) as [bs h2].
  cbn in *. by rewrite IH.
Qed.

Lemma window_body_known W N last v (w : world St) reads h1 :
  W ≠ 0 →
  fetch samfile (handle w) chrom (start v) (end_ v) = (reads, h1) →
  lengths_known reads = true →
  window_body samfile chrom W N last v w =
    (inr {| window_id := window_id v + 1;
            start := (advance W N last (window_id v + 1) (start v) (end_ v)).1;
            end_ := (advance W N last (window_id v + 1) (start v) (end_ v)).2;
            start_list := start_list v ++ [start v];
            stop_list := stop_list v ++ [end_ v];
            depth_list := depth_list v ++ [window_depth W reads];
            mapq_list := mapq_list v ++ [window_mapq reads] |},
     {| handle := h1;
        trace := trace w ++ [Fetched chrom (start v) (end_ v);
                             Printed (window_id v + 1) N chrom] |}).
Proof.
  intros HW Hf Hk. unfold window_body, bind, do_fetch. rewrite Hf. cbn.
  rewrite count_reads_known by done. cbn.
  rewrite truediv_nonzero by done. cbn.
  destruct (advance W N last (window_id v + 1) (start v) (end_ v)) as [s e].
  cbn. by rewrite <- app_assoc.
Qed.

Lemma window_body_unknown W N last v (w : world St) :
  lengths_known (fetch samfile (handle w) chrom (start v) (end_ v)).1 = false →
  (window_body samfile chrom W N last v w).1 = inl TypeError.
Proof.
  intros Hk. unfold window_body, bind, do_fetch.
  destruct (fetch samfile (handle w) chrom (start v) (end_ v)) as [reads h1].
  cbn in *. by rewrite count_reads_unknown.
Qed.

Lemma window_stop_next W N last j :
  0 ≤ j → j + 1 < N →
  (advance W N last (j + 1) (j * W) (window_stop W N last j)) =
    ((j + 1) * W, window_stop W N last (j + 1)).
Proof.
  intros Hj Hlt. unfold advance, window_stop.
  repeat case_decide; f_equal; lia.
Qed.

Lemma for_range_known W N last (n : nat) :
  W ≠ 0 →
  ∀ v (w : world St) bs h',
    0 ≤ window_id v → window_id v + Z.of_nat n = N →
    (n ≠ 0%nat →
     start v = window_id v * W ∧ end_ v = window_stop W N last (window_id v)) →
    fetch_all samfile chrom (window_bounds W N last <$> seqZ (window_id v) (Z.of_nat n))
      (handle w) = (bs, h') →
    forallb lengths_known bs = true →
    ∃ v',
      for_range n (window_body samfile chrom W N last) v w =
        (inr v',
         {| handle := h';
            trace := trace w ++
              scan_trace chrom N (window_id v)
                (window_bounds W N last <$> seqZ (window_id v) (Z.of_nat n)) |})
      ∧ start_list v' =
          start_list v ++ (window_bounds W N last <$> seqZ (window_id v) (Z.of_nat n)).*1
      ∧ stop_list v' =
          stop_list v ++ (window_bounds W N last <$> seqZ (window_id v) (Z.of_nat n)).*2
      ∧ depth_list v' = depth_list v ++ (window_depth W <$> bs)
      ∧ mapq_list v' = mapq_list v ++ (window_mapq <$> bs).
Proof.
  intros HW. induction n as [|n IH]; intros v w bs h' Hj HN Hcur Hf Hk.
  - cbn in Hf. injection Hf as <- <-. exists v. cbn.
    rewrite !app_nil_r. by destruct w.
  - destruct Hcur as [Hs He]; [done|].
    rewrite seqZ_cons in * by lia.
    replace (Z.pred (Z.of_nat (S n))) with (Z.of_nat n) in * by lia.
    rewrite fmap_cons in *. cbn [fetch_all window_bounds fst snd] in Hf.
    rewrite <- Hs, <- He in Hf.
    destruct (fetch samfile (handle w) chrom (start v) (end_ v)) as [reads h1] eqn:Hf1.
    destruct (fetch_all _ _ _ h1) as [bs1 h2] eqn:Hf2.
    injection Hf as <- <-. cbn in Hk. apply andb_prop in Hk as [Hk1 Hk].
    cbn [for_range]. unfold bind at 1.
    rewrite (window_body_known _ _ _ _ _ _ _ HW Hf1 Hk1).
    set (v1 := {| window_id := window_id v + 1 |}).
    set (w1 := {| handle := h1 |}).
    assert (Hcur1 : n ≠ 0%nat →
              start v1 = window_id v1 * W ∧
              end_ v1 = window_stop W N last (window_id v1)).
    { intros Hn. subst v1. cbn. rewrite Hs, He.
      rewrite window_stop_next by lia. done. }
    destruct (IH v1 w1 bs1 h2) as (v' & Hrun & Hsl & Hel & Hdl & Hml);
      [subst v1; cbn; lia..|done| |done|].
    { subst v1 w1. cbn [window_id handle]. unfold Z.succ in Hf2. done. }
    exists v'. subst v1 w1. cbn [window_id handle trace start_list stop_list
                                depth_list mapq_list] in *.
    rewrite Hrun, Hsl, Hel, Hdl, Hml. unfold Z.succ.
    cbn [scan_trace fmap list_fmap window_bounds fst snd].
    rewrite <- Hs, <- He, <- !app_assoc. done.
Qed.

Lemma for_range_unknown W N last (n : nat) :
  W ≠ 0 →
  ∀ v (w : world St),
    0 ≤ window_id v → window_id v + Z.of_nat n = N →
    (n ≠ 0%nat →
     start v = window_id v * W ∧ end_ v = window_stop W N last (window_id v)) →
    forallb lengths_known
      (fetch_all samfile chrom
         (window_bounds W N last <$> seqZ (window_id v) (Z.of_nat n))
         (handle w)).1 = false →
    (for_range n (window_body samfile chrom W N last) v w).1 = inl TypeError.
Proof.
  intros HW. induction n as [|n IH]; intros v w Hj HN Hcur Hk; [done|].
  destruct Hcur as [Hs He]; [done|].
  rewrite seqZ_cons in Hk by lia.
  replace (Z.pred (Z.of_nat (S n))) with (Z.of_nat n) in Hk by lia.
  rewrite fmap_cons in Hk. cbn [fetch_all window_bounds fst snd] in Hk.
  rewrite <- Hs, <- He in Hk.
  cbn [for_range]. unfold bind at 1.
  destruct (lengths_known (fetch samfile (handle w) chrom (start v) (end_ v)).1)
    eqn:Hk1.
  - destruct (fetch samfile (handle w) chrom (start v) (end_ v)) as [reads h1] eqn:Hf1.
    rewrite (window_body_known _ _ _ _ _ _ _ HW Hf1 Hk1).
    destruct (fetch_all _ _ _ h1) as [bs1 h2] eqn:Hf2.
    cbn [fst snd] in Hk1. cbn [fst snd forallb] in Hk.
    rewrite Hk1 in Hk. cbn [andb] in Hk.
    apply IH; cbn [window_id start end_ handle]; [lia..| |].
    + intros Hn. rewrite Hs, He, window_stop_next by lia. done.
    + unfold Z.succ in Hf2. by rewrite Hf2.
  - pose proof (window_body_unknown W N last v w Hk1) as Hb.
    destruct (window_body samfile chrom W N last v w) as [[e|v1] w1]; cbn in *.
    + by rewrite Hb.
    + done.
Qed.
End Run.

(** ** The whole scan on a chromosome of known length *)

Section Traverse.
Context {St : Type} (samfile : AlignmentFile St) (chrom : string).

Lemma get_length_inv (w : world St) L :
  (get_length samfile chrom w).1 = inr L →
  dict_zip (references samfile) (lengths samfile) !! chrom = Some L.
Proof.
  unfold get_length.
  destruct (dict_zip (references samfile) (lengths samfile) !! chrom); cbn; congruence.
Qed.

Lemma num_windows_pos L W : 0 ≤ L → 0 < W → 1 ≤ num_windows_of L W.
Proof.
  intros HL HW. unfold num_windows_of.
  pose proof (Z.div_pos L W HL HW). lia.
Qed.

Lemma length_partition L W :
  length (partition L W) = Z.to_nat (num_windows_of L W).
Proof. unfold partition. by rewrite length_fmap, length_seqZ. Qed.

Lemma length_fetched L W h :
  length (fetched samfile chrom L W h) = Z.to_nat (num_windows_of L W).
Proof. unfold fetched. by rewrite fetch_all_length, length_partition. Qed.

Lemma traverse_known (w : world St) L W :
  (get_length samfile chrom w).1 = inr L → 0 ≤ L → 0 < W →
  forallb lengths_known (fetched samfile chrom L W (handle w)) = true →
  traverse_bam_fetch samfile chrom W w =
    (inr {| windows := table samfile chrom L W (handle w) |},
     {| handle := (fetch_all samfile chrom (partition L W) (handle w)).2;
        trace := trace w ++ scan_trace chrom (num_windows_of L W) 0 (partition L W) |}).
Proof.
  intros HL%get_length_inv HL0 HW Hk.
  pose proof (num_windows_pos L W HL0 HW) as HN.
  unfold traverse_bam_fetch, bind at 1, get_length. rewrite HL. cbn [ret].
  unfold bind at 1, floordiv. destruct (decide (W = 0)) as [|_]; [lia|]. cbn [lift ret].
  fold (num_windows_of L W).
  unfold bind at 1, pymod.
  destruct (decide (num_windows_of L W = 0)) as [|_]; [lia|]. cbn [lift ret].
  fold (last_window_len_of L W).
  set (N := num_windows_of L W) in *. set (last := last_window_len_of L W).
  set (v0 := {| window_id := 0 |}).
  unfold fetched in Hk.
  destruct (fetch_all samfile chrom (partition L W) (handle w)) as [bs h'] eqn:Hf.
  destruct (for_range_known samfile chrom W N last (Z.to_nat N) ltac:(lia) v0 w bs h')
    as (v' & Hrun & Hsl & Hel & Hdl & Hml).
  - done.
  - cbn. lia.
  - intros _. cbn. unfold window_stop. case_decide; lia.
  - cbn [window_id v0]. rewrite Z2Nat.id by lia. exact Hf.
  - exact Hk.
  - unfold bind at 1. rewrite Hrun. cbn [window_id v0] in *.
    rewrite Z2Nat.id in * by lia.
    change (window_bounds W N last <$> seqZ 0 N) with (partition L W) in *.
    cbn [start_list stop_list depth_list mapq_list v0 app] in *.
    assert (Hlen : length bs = length (partition L W)).
    { change bs with (bs, h').1. rewrite <- Hf. apply fetch_all_length. }
    unfold bind at 1.
    rewrite Hsl, Hel, Hdl, Hml.
    rewrite <- (fst_zip (partition L W) bs) at 1 by lia.
    rewrite <- (fst_zip (partition L W) bs) at 2 by lia.
    rewrite <- (snd_zip (partition L W) bs) at 3 by lia.
    rewrite <- (snd_zip (partition L W) bs) at 4 by lia.
    rewrite <- !list_fmap_compose.
    replace (replicate (Z.to_nat N) chrom)
      with ((λ _ : (Z * Z) * list AlignedSegment, chrom) <$> zip (partition L W) bs).
    2:{ rewrite (const_fmap _ _ chrom) by done.
        by rewrite length_zip, <- Hlen, Nat.min_id, Hlen, length_partition. }
    rewrite DataFrame_fmap. cbn [lift ret].
    unfold table, fetched. rewrite Hf. done.
Qed.

Lemma length_table L W h :
  length (table samfile chrom L W h) = Z.to_nat (num_windows_of L W).
Proof.
  unfold table. rewrite length_fmap, length_zip, length_fetched, length_partition. lia.
Qed.

Lemma table_bounds L W h :
  (λ r, (WindowMetrics.start r, WindowMetrics.stop r)) <$> table samfile chrom L W h
  = partition L W.
Proof.
  unfold table. rewrite <- list_fmap_compose.
  rewrite <- (fst_zip (partition L W) (fetched samfile chrom L W h)) at 2
    by (rewrite length_fetched, length_partition; lia).
  apply list_fmap_ext. by intros i [[a b] reads] _.
Qed.

Lemma table_lookup L W h (i : nat) row :
  table samfile chrom L W h !! i = Some row ↔
  ∃ ab reads,
    partition L W !! i = Some ab ∧ fetched samfile chrom L W h !! i = Some reads ∧
    row = row_of chrom W (ab, reads).
Proof.
  unfold table. rewrite list_lookup_fmap, fmap_Some. split.
  - intros ([ab reads] & Hz & ->). apply lookup_zip_with_Some in Hz.
    destruct Hz as (ab' & reads' & [= <- <-] & Hab & Hr). eauto.
  - intros (ab & reads & Hab & Hr & ->). exists (ab, reads). split; [|done].
    apply lookup_zip_with_Some. eauto.
Qed.
End Traverse.

(** ** Arithmetic of the partition *)

Lemma partition_lookup L W (i : nat) ab :
  partition L W !! i = Some ab ↔
  Z.of_nat i < num_windows_of L W ∧
  ab = window_bounds W (num_windows_of L W) (last_window_len_of L W) (Z.of_nat i).
Proof.
  unfold partition. cbn zeta. rewrite list_lookup_fmap, fmap_Some. split.
  - intros (j & [-> Hlt]%lookup_seqZ & ->). by rewrite Z.add_0_l.
  - intros [Hlt ->]. exists (Z.of_nat i). split; [|done].
    apply lookup_seqZ. split; lia.
Qed.

Lemma last_window_len_pos L W : 0 ≤ L → 0 < W → 0 < last_window_len_of L W.
Proof.
  intros HL HW. pose proof (num_windows_pos L W HL HW) as HN.
  unfold last_window_len_of. cbn zeta. case_decide; [done|].
  pose proof (Z.mod_pos_bound L (num_windows_of L W)). lia.
Qed.

Lemma window_stop_inner W N last j : j < N - 1 → window_stop W N last j = (j + 1) * W.
Proof. intros Hj. unfold window_stop. case_decide; lia. Qed.

Lemma window_stop_final W N last :
  1 < N → window_stop W N last (N - 1) = (N - 1) * W + last.
Proof. intros HN. unfold window_stop. case_decide; lia. Qed.

Lemma window_stop_single W last : window_stop W 1 last 0 = W.
Proof. unfold window_stop. case_decide; lia. Qed.

Lemma window_span_pos W N last j :
  0 < W → 0 < last → j * W < window_stop W N last j.
Proof. intros HW Hl. unfold window_stop. case_decide; lia. Qed.

Lemma window_stop_le_start W N last i j :
  0 < W → 0 ≤ i → i < j → j < N → window_stop W N last i ≤ j * W.
Proof. intros HW Hi Hij HjN. rewrite window_stop_inner by lia. nia. Qed.

(** The spans of windows [j], ..., [N - 1] add up to the last stop less the
    start of window [j]. *)
Lemma sum_spans_from W N last (n : nat) :
  ∀ j, 0 ≤ j → j + Z.of_nat (S n) = N →
    sum_list ((λ ab : Z * Z, ab.2 - ab.1) <$>
              (window_bounds W N last <$> seqZ j (Z.of_nat (S n))))
    = window_stop W N last (N - 1) - j * W.
Proof.
  induction n as [|n IH]; intros j Hj HN.
  - replace (N - 1) with j by lia.
    rewrite seqZ_cons, seqZ_nil by lia. unfold sum_list. cbn [fmap list_fmap foldr].
    cbn [window_bounds fst snd]. lia.
  - rewrite seqZ_cons by lia.
    replace (Z.pred (Z.of_nat (S (S n)))) with (Z.of_nat (S n)) by lia.
    rewrite !fmap_cons. unfold sum_list in *. cbn [foldr].
    rewrite IH by lia. cbn [window_bounds fst snd].
    rewrite window_stop_inner by lia. lia.
Qed.

Lemma sum_spans_partition L W :
  0 ≤ L → 0 < W →
  sum_list ((λ ab : Z * Z, ab.2 - ab.1) <$> partition L W) =
    window_stop W (num_windows_of L W) (last_window_len_of L W) (num_windows_of L W - 1).
Proof.
  intros HL HW. pose proof (num_windows_pos L W HL HW) as HN.
  unfold partition. cbn zeta.
  replace (num_windows_of L W) with (Z.of_nat (S (Z.to_nat (num_windows_of L W - 1))))
    at 2 by lia.
  rewrite sum_spans_from by lia. lia.
Qed.

(** ** Failure and determinism of the scan *)

Lemma traverse_unknown {St} (samfile : AlignmentFile St) chrom (w : world St) L W :
  (get_length samfile chrom w).1 = inr L → 0 ≤ L → 0 < W →
  forallb lengths_known (fetched samfile chrom L W (handle w)) = false →
  (traverse_bam_fetch samfile chrom W w).1 = inl TypeError.
Proof.
  intros HL%get_length_inv HL0 HW Hk.
  pose proof (num_windows_pos L W HL0 HW) as HN.
  unfold traverse_bam_fetch, bind at 1, get_length. rewrite HL. cbn [ret].
  unfold bind at 1, floordiv. destruct (decide (W = 0)) as [|_]; [lia|]. cbn [lift ret].
  fold (num_windows_of L W).
  unfold bind at 1, pymod.
  destruct (decide (num_windows_of L W = 0)) as [|_]; [lia|]. cbn [lift ret].
  fold (last_window_len_of L W).
  set (v0 := {| window_id := 0 |}).
  assert (Hrun : (for_range (Z.to_nat (num_windows_of L W))
                    (window_body samfile chrom W (num_windows_of L W)
                       (last_window_len_of L W)) v0 w).1 = inl TypeError).
  { apply for_range_unknown; cbn [window_id start end_ v0]; [lia..| |].
    - intros _. unfold window_stop. case_decide; lia.
    - rewrite Z2Nat.id by lia. exact Hk. }
  unfold bind at 1.
  destruct (for_range _ _ v0 w) as [[e|v'] w']; cbn in Hrun; [|done].
  by injection Hrun as ->.
Qed.

Section Stateless.
Context {St : Type}.

Lemma ret_stateless {A} (a : A) : stateless (St:=St) (ret a).
Proof. by intros w1 w2. Qed.

Lemma raise_stateless {A} e : stateless (St:=St) (raise (A:=A) e).
Proof. by intros w1 w2. Qed.

Lemma lift_stateless {A} (r : exn + A) : stateless (St:=St) (lift r).
Proof. destruct r; [apply raise_stateless|apply ret_stateless]. Qed.

Lemma emit_stateless e : stateless (St:=St) (emit e).
Proof. by intros w1 w2. Qed.

Lemma bind_stateless {A B} (m : M St A) (k : A → M St B) :
  stateless m → (∀ a, stateless (k a)) → stateless (bind m k).
Proof.
  intros Hm Hk w1 w2. unfold bind. specialize (Hm w1 w2).
  destruct (m w1) as [[e1|a1] w1'], (m w2) as [[e2|a2] w2']; cbn in Hm; try done;
    injection Hm as <-; [done|apply Hk].
Qed.

Lemma get_length_stateless (bamfile : AlignmentFile St) chrom :
  stateless (get_length bamfile chrom).
Proof.
  unfold get_length.
  destruct (_ !! chrom); [apply ret_stateless|apply raise_stateless].
Qed.

Lemma do_fetch_stateless (samfile : AlignmentFile St) chrom a b :
  deterministic samfile → stateless (do_fetch samfile chrom a b).
Proof.
  intros Hdet w1 w2. unfold do_fetch.
  specialize (Hdet (handle w1) (handle w2) chrom a b).
  destruct (fetch samfile (handle w1) chrom a b), (fetch samfile (handle w2) chrom a b).
  cbn in *. by subst.
Qed.

Lemma window_body_stateless (samfile : AlignmentFile St) chrom W N last v :
  deterministic samfile → stateless (window_body samfile chrom W N last v).
Proof.
  intros Hdet. unfold window_body.
  apply bind_stateless; [by apply do_fetch_stateless|]. intros reads.
  apply bind_stateless; [apply lift_stateless|]. intros [total mapq].
  apply bind_stateless; [apply lift_stateless|]. intros depth.
  destruct (advance W N last (window_id v + 1) (start v) (end_ v)).
  apply bind_stateless; [apply emit_stateless|]. intros _. apply ret_stateless.
Qed.

Lemma for_range_stateless (body : locals → M St locals) (n : nat) :
  (∀ v, stateless (body v)) → ∀ v, stateless (for_range n body v).
Proof.
  intros Hbody. induction n as [|n IH]; intros v; cbn [for_range].
  - apply ret_stateless.
  - by apply bind_stateless.
Qed.

Lemma traverse_stateless (samfile : AlignmentFile St) chrom W :
  deterministic samfile → stateless (traverse_bam_fetch samfile chrom W).
Proof.
  intros Hdet. unfold traverse_bam_fetch.
  apply bind_stateless; [apply get_length_stateless|]. intros L.
  apply bind_stateless; [apply lift_stateless|]. intros q.
  apply bind_stateless; [apply lift_stateless|]. intros r.
  apply bind_stateless.
  { apply for_range_stateless. intros v. by apply window_body_stateless. }
  intros v. apply bind_stateless; [apply lift_stateless|]. intros df.
  apply ret_stateless.
Qed.
End Stateless.

(** ** Rows of the table *)

Section Rows.
Context {St : Type} (samfile : AlignmentFile St) (chrom : string).
Context (L W : Z) (h : St).
Hypothesis (HL : 0 ≤ L) (HW : 0 < W).

Local Notation "'N'" := (num_windows_of L W).
Local Notation "'last_len'" := (last_window_len_of L W).
Local Notation "'rows'" := (table samfile chrom L W h).

Lemma table_row (i : nat) r :
  rows !! i = Some r →
  Z.of_nat i < N ∧ WindowMetrics.start r = Z.of_nat i * W ∧
  WindowMetrics.stop r = window_stop W N last_len (Z.of_nat i) ∧
  ∃ reads, fetched samfile chrom L W h !! i = Some reads ∧
           WindowMetrics.depth r = window_depth W reads ∧
           WindowMetrics.mapq r = window_mapq reads.
Proof.
  intros (ab & reads & [Hlt ->]%partition_lookup & Hreads & ->)%table_lookup.
  repeat split; [done|]. by exists reads.
Qed.

Lemma table_row_lt (i : nat) : Z.of_nat i < N → is_Some (rows !! i).
Proof. intros Hi. apply lookup_lt_is_Some. rewrite length_table. lia. Qed.

Lemma table_spans :
  (λ r, WindowMetrics.stop r - WindowMetrics.start r) <$> rows
  = (λ ab : Z * Z, ab.2 - ab.1) <$> partition L W.
Proof. by rewrite <- (table_bounds samfile chrom L W h), <- list_fmap_compose. Qed.

Lemma table_sum_spans :
  sum_list ((λ r, WindowMetrics.stop r - WindowMetrics.start r) <$> rows)
  = window_stop W N last_len (N - 1).
Proof. rewrite table_spans. by apply sum_spans_partition. Qed.

Lemma table_contiguous (i : nat) r r' :
  rows !! i = Some r → rows !! S i = Some r' →
  WindowMetrics.stop r = WindowMetrics.start r'.
Proof.
  intros (_ & _ & -> & _)%table_row (Hlt & -> & _)%table_row.
  rewrite window_stop_inner by lia. lia.
Qed.

Lemma table_span_pos r : r ∈ rows → WindowMetrics.start r < WindowMetrics.stop r.
Proof.
  intros [i (_ & -> & -> & _)%table_row]%list_elem_of_lookup.
  apply window_span_pos; [done|]. by apply last_window_len_pos.
Qed.

Lemma table_ordered (i j : nat) r r' :
  (i < j)%nat → rows !! i = Some r → rows !! j = Some r' →
  WindowMetrics.stop r ≤ WindowMetrics.start r' ∧
  WindowMetrics.start r < WindowMetrics.start r'.
Proof.
  intros Hij (_ & -> & -> & _)%table_row (Hlt & -> & _)%table_row.
  split; [apply window_stop_le_start; lia|nia].
Qed.

Lemma table_covers p :
  0 ≤ p < sum_list ((λ r, WindowMetrics.stop r - WindowMetrics.start r) <$> rows) →
  ∃ r, r ∈ rows ∧ WindowMetrics.start r ≤ p < WindowMetrics.stop r.
Proof.
  rewrite table_sum_spans. intros [Hp0 Hp].
  pose proof (num_windows_pos L W HL HW) as HN.
  destruct (decide (p < (N - 1) * W)) as [Hin|Hout].
  - assert (Hi : 0 ≤ p `div` W < N - 1).
    { split; [by apply Z.div_pos|]. apply Z.div_lt_upper_bound; lia. }
    destruct (table_row_lt (Z.to_nat (p `div` W))) as [r Hr]; [lia|].
    exists r. split; [by eapply list_elem_of_lookup_2|].
    apply table_row in Hr as (_ & -> & -> & _). rewrite Z2Nat.id by lia.
    rewrite window_stop_inner by lia.
    pose proof (Z.div_mod p W ltac:(lia)). pose proof (Z.mod_pos_bound p W HW). lia.
  - destruct (table_row_lt (Z.to_nat (N - 1))) as [r Hr]; [lia|].
    exists r. split; [by eapply list_elem_of_lookup_2|].
    apply table_row in Hr as (_ & -> & -> & _). rewrite Z2Nat.id by lia. lia.
Qed.

Lemma table_within r p :
  r ∈ rows → WindowMetrics.start r ≤ p < WindowMetrics.stop r →
  0 ≤ p < sum_list ((λ r, WindowMetrics.stop r - WindowMetrics.start r) <$> rows).
Proof.
  rewrite table_sum_spans.
  intros [i (Hlt & -> & -> & _)%table_row]%list_elem_of_lookup [Hp0 Hp].
  pose proof (last_window_len_pos L W HL HW) as Hlast.
  split; [nia|].
  destruct (decide (Z.of_nat i = N - 1)) as [<-|Hne]; [done|].
  rewrite window_stop_inner in Hp by lia.
  pose proof (window_span_pos W N last_len (N - 1) HW Hlast). nia.
Qed.
End Rows.

Lemma partition_single L W : 0 ≤ L → L < W → partition L W = [(0, W)].
Proof.
  intros HL HW. unfold partition, last_window_len_of, num_windows_of. cbn zeta.
  rewrite Z.div_small by lia. change (0 + 1) with 1.
  rewrite seqZ_cons, seqZ_nil by lia. cbn [fmap list_fmap].
  unfold window_bounds. by rewrite window_stop_single, Z.mul_0_l.
Qed.

(** ** Metrics of one window *)

Lemma uniform_reads (reads : list AlignedSegment) (Q R : Z) :
  (∀ r, r ∈ reads → mapping_quality r = Q ∧ infer_query_length r = Some R) →
  total_length reads = Z.of_nat (length reads) * R ∧
  mapping_quality <$> reads = replicate (length reads) Q.
Proof.
  induction reads as [|read reads IH]; intros Hall; [done|].
  destruct (Hall read) as [HQ HR]; [by left|].
  destruct IH as [IHt IHm]; [intros r Hr; apply Hall; by right|].
  split.
  - unfold total_length in *. rewrite fmap_cons. unfold sum_list in *.
    cbn [foldr length]. rewrite IHt. unfold query_length at 1. rewrite HR.
    cbn [default id]. lia.
  - rewrite fmap_cons, IHm, HQ. done.
Qed.

Lemma primary_flagged (reads : list AlignedSegment) :
  (∀ r, r ∈ reads → is_secondary r = true ∨ is_supplementary r = true) →
  primary reads = [].
Proof.
  induction reads as [|read reads IH]; intros Hall; [done|].
  rewrite primary_cons.
  destruct (Hall read) as [Hs|Hs]; [by left| |]; unfold retained; rewrite Hs.
  - cbn. apply IH. intros r Hr. apply Hall. by right.
  - rewrite andb_false_r. apply IH. intros r Hr. apply Hall. by right.
Qed.

Lemma window_metrics_empty (W : Z) (reads : list AlignedSegment) :
  primary reads = [] →
  window_depth W reads = Finite 0 ∧ window_mapq reads = NaN.
Proof. intros Hp. unfold window_depth, window_mapq. by rewrite Hp. Qed.

Lemma fetch_all_silent {St} (samfile : AlignmentFile St) chrom ws h reads :
  (∀ h c a b, (fetch samfile h c a b).1 = []) →
  reads ∈ (fetch_all samfile chrom ws h).1 → reads = [].
Proof.
  intros Hsilent. revert h. induction ws as [|ab ws IH]; intros h; cbn.
  - by intros ?%elem_of_nil.
  - specialize (Hsilent h chrom ab.1 ab.2).
    destruct (fetch samfile h chrom ab.1 ab.2) as [reads0 h1]. specialize (IH h1).
    destruct (fetch_all samfile chrom ws h1) as [bs h2]. cbn in *.
    intros [->|Hin]%elem_of_cons; [done|by apply IH].
Qed.

(** * Properties of the scan *)

(** C1, evaluated on the code.  On a chromosome of length 1000 scanned with
    windows of 300 the last window stops at 1200 and the spans add up to 1200:
    neither equals the chromosome length. *)
Theorem last_stop_overshoots_chromosome :
  (get_length sample_file "chrX" fresh).1 = inr 1000 ∧
  ∃ rows,
    (traverse_bam_fetch sample_file "chrX" 300 fresh).1 = inr {| windows := rows |} ∧
    (λ r, (WindowMetrics.start r, WindowMetrics.stop r)) <$> rows =
      [(0, 300); (300, 600); (600, 900); (900, 1200)] ∧
    sum_list ((λ r, WindowMetrics.stop r - WindowMetrics.start r) <$> rows) = 1200 ∧
    WindowMetrics.stop <$> last rows = Some 1200 ∧
    1200 ≠ 1000.
Proof.
  split; [by vm_compute|].
  eexists. split; [vm_compute; reflexivity|].
  repeat split; by vm_compute.
Qed.

(** C2.  With [N = L // W + 1], the span of the final window is [W] when
    [L % N = 0] and [L % N] otherwise.  The first window stops at [W], and
    from one window to the next the stop moves by [W], except into the final
    window, where it moves by that last-window length.  For a chromosome of
    length 1000 and windows of 300 the bounds are [0,300), [300,600),
    [600,900), [900,1200). *)
Theorem final_window_span {St} (samfile : AlignmentFile St) (chrom : string)
    (w : world St) (L W : Z) :
  (get_length samfile chrom w).1 = inr L → 0 ≤ L → 0 < W →
  forallb lengths_known (fetched samfile chrom L W (handle w)) = true →
  let N := L `div` W + 1 in
  let last_window_len := if decide (L `mod` N = 0) then W else L `mod` N in
  ∃ rows w',
    traverse_bam_fetch samfile chrom W w = (inr {| windows := rows |}, w') ∧
    (∃ r, last rows = Some r ∧
          WindowMetrics.stop r - WindowMetrics.start r = last_window_len) ∧
    WindowMetrics.stop <$> rows !! 0%nat = Some W ∧
    (∀ (i : nat) r r',
       rows !! i = Some r → rows !! S i = Some r' →
       WindowMetrics.stop r' =
         WindowMetrics.stop r +
         (if decide (Z.of_nat (S i) = N - 1) then last_window_len else W)) ∧
    (L = 1000 → W = 300 →
     (λ r, (WindowMetrics.start r, WindowMetrics.stop r)) <$> rows =
       [(0, 300); (300, 600); (600, 900); (900, 1200)]).
Proof.
  intros Hlen HL HW Hk N last_window_len. eexists _, _.
  split; [by apply traverse_known|].
  pose proof (num_windows_pos L W HL HW) as HN.
  change N with (num_windows_of L W) in *.
  change last_window_len with (last_window_len_of L W) in *.
  clear N last_window_len.
  split; [|split; [|split]].
  - rewrite last_lookup, length_table.
    destruct (table_row_lt samfile chrom L W (handle w)
                (Nat.pred (Z.to_nat (num_windows_of L W)))) as [r Hr]; [lia|].
    exists r. split; [done|].
    apply table_row in Hr as (_ & -> & -> & _).
    replace (Z.of_nat (Nat.pred (Z.to_nat (num_windows_of L W))))
      with (num_windows_of L W - 1) by lia.
    destruct (decide (num_windows_of L W = 1)) as [H1|H1].
    + rewrite H1. cbn [Z.sub Z.add Z.opp Z.pos_sub]. rewrite window_stop_single.
      unfold last_window_len_of. cbn zeta. rewrite H1, Z.mod_1_r.
      case_decide; [lia|done].
    + rewrite window_stop_final by lia. lia.
  - destruct (table_row_lt samfile chrom L W (handle w) 0) as [r Hr]; [lia|].
    rewrite Hr. apply table_row in Hr as (_ & _ & Hr & _). cbn. f_equal.
    rewrite Hr. unfold window_stop. case_decide; lia.
  - intros i r r' (_ & _ & -> & _)%table_row (Hlt & _ & -> & _)%table_row.
    rewrite (window_stop_inner _ _ _ (Z.of_nat i)) by lia.
    case_decide as Hlast.
    + rewrite Hlast, window_stop_final by lia. lia.
    + rewrite window_stop_inner by lia. lia.
  - intros -> ->. by rewrite table_bounds.
Qed.

Lemma final_window_span_witness :
  ∃ rows w',
    traverse_bam_fetch sample_file "chrX" 300 fresh = (inr {| windows := rows |}, w') ∧
    (λ r, (WindowMetrics.start r, WindowMetrics.stop r)) <$> rows =
      [(0, 300); (300, 600); (600, 900); (900, 1200)].
Proof.
  destruct (final_window_span sample_file "chrX" fresh 1000 300)
    as (rows & w' & Hrun & _ & _ & _ & Hex).
  - by vm_compute.
  - lia.
  - lia.
  - by vm_compute.
  - exists rows, w'. split; [exact Hrun|by apply Hex].
Defined.

(** C3.  A scan of a chromosome of length [L] with windows of size [W > 0]
    returns a table of exactly [L // W + 1] rows.  The first window starts at
    0, each window stops where the next one starts, every window has a
    positive span, two distinct windows do not overlap, the starts increase
    with the row number, and the positions covered by the windows are
    exactly those from 0 up to the sum of the spans. *)
Theorem scan_windows_tile {St} (samfile : AlignmentFile St) (chrom : string)
    (w : world St) (L W : Z) :
  (get_length samfile chrom w).1 = inr L → 0 ≤ L → 0 < W →
  forallb lengths_known (fetched samfile chrom L W (handle w)) = true →
  ∃ rows w',
    traverse_bam_fetch samfile chrom W w = (inr {| windows := rows |}, w') ∧
    Z.of_nat (length rows) = L `div` W + 1 ∧
    WindowMetrics.start <$> rows !! 0%nat = Some 0 ∧
    (∀ (i : nat) r r',
       rows !! i = Some r → rows !! S i = Some r' →
       WindowMetrics.stop r = WindowMetrics.start r') ∧
    (∀ r, r ∈ rows → WindowMetrics.start r < WindowMetrics.stop r) ∧
    (∀ (i j : nat) r r',
       (i < j)%nat → rows !! i = Some r → rows !! j = Some r' →
       WindowMetrics.stop r ≤ WindowMetrics.start r' ∧
       WindowMetrics.start r < WindowMetrics.start r') ∧
    (∀ p,
       0 ≤ p < sum_list ((λ r, WindowMetrics.stop r - WindowMetrics.start r) <$> rows) ↔
       ∃ r, r ∈ rows ∧ WindowMetrics.start r ≤ p < WindowMetrics.stop r).
Proof.
  intros Hlen HL HW Hk. eexists _, _.
  split; [by apply traverse_known|].
  pose proof (num_windows_pos L W HL HW) as HN.
  split; [rewrite length_table; unfold num_windows_of in *; lia|].
  split.
  { destruct (table_row_lt samfile chrom L W (handle w) 0) as [r Hr]; [lia|].
    rewrite Hr. apply table_row in Hr as (_ & Hr & _). cbn. f_equal. lia. }
  split; [by apply table_contiguous|].
  split; [by apply table_span_pos|].
  split; [by apply table_ordered|].
  intros p. split; [by apply table_covers|].
  intros (r & Hr & Hp). by eapply table_within.
Qed.

Lemma scan_windows_tile_witness :
  ∃ rows w',
    traverse_bam_fetch sample_file "chrX" 300 fresh = (inr {| windows := rows |}, w') ∧
    Z.of_nat (length rows) = 1000 `div` 300 + 1.
Proof.
  destruct (scan_windows_tile sample_file "chrX" fresh 1000 300)
    as (rows & w' & Hrun & Hlen & _).
  - by vm_compute.
  - lia.
  - lia.
  - by vm_compute.
  - by exists rows, w'.
Defined.

Lemma Qred_quotient (a b : Z) :
  b ≠ 0 → (Qred (inject_Z a / inject_Z b) * inject_Z b == inject_Z a)%Q.
Proof.
  intros Hb. rewrite Qred_correct, Qmult_comm. apply Qmult_div_r.
  unfold Qeq. cbn. lia.
Qed.

(** C4.  In every row the depth is the total inferred query length of the
    records that count (neither secondary nor supplementary) among those
    fetched for the window, divided by the window size [W] passed to the scan,
    the final window included: it is the rational in lowest terms whose
    product with [W] is that total.  The mapping quality is the mean over the
    same records, undefined when there is none.  When these records are [k]
    in number and each has mapping quality [Q] and inferred query length [R],
    the depth is [(k * R) / W] and, for [k > 0], the mapping quality is
    [Q]. *)
Theorem depth_over_nominal_window_size {St} (samfile : AlignmentFile St)
    (chrom : string) (w : world St) (L W : Z) :
  (get_length samfile chrom w).1 = inr L → 0 ≤ L → 0 < W →
  forallb lengths_known (fetched samfile chrom L W (handle w)) = true →
  ∃ rows w',
    traverse_bam_fetch samfile chrom W w = (inr {| windows := rows |}, w') ∧
    length rows = length (fetched samfile chrom L W (handle w)) ∧
    ∀ (i : nat) row,
      rows !! i = Some row →
      ∃ reads,
        fetched samfile chrom L W (handle w) !! i = Some reads ∧
        truediv (total_length (primary reads)) W = inr (WindowMetrics.depth row) ∧
        WindowMetrics.depth row =
          Finite (Qred (inject_Z (total_length (primary reads)) / inject_Z W)) ∧
        (∃ q, WindowMetrics.depth row = Finite q ∧
              (q * inject_Z W == inject_Z (total_length (primary reads)))%Q) ∧
        WindowMetrics.mapq row = np_mean (mapping_quality <$> primary reads) ∧
        (primary reads = [] → WindowMetrics.mapq row = NaN) ∧
        (primary reads ≠ [] →
         ∃ q, WindowMetrics.mapq row = Finite q ∧
              (q * inject_Z (Z.of_nat (length (primary reads)))
               == inject_Z (sum_list (mapping_quality <$> primary reads)))%Q) ∧
        ∀ (k : nat) (Q R : Z),
          length (primary reads) = k →
          (∀ r, r ∈ primary reads →
                mapping_quality r = Q ∧ infer_query_length r = Some R) →
          truediv (Z.of_nat k * R) W = inr (WindowMetrics.depth row) ∧
          WindowMetrics.depth row =
            Finite (Qred (inject_Z (Z.of_nat k * R) / inject_Z W)) ∧
          (∃ q, WindowMetrics.depth row = Finite q ∧
                (q * inject_Z W == inject_Z (Z.of_nat k * R))%Q) ∧
          ((0 < k)%nat → WindowMetrics.mapq row = Finite (inject_Z Q)).
Proof.
  intros Hlen HL HW Hk. eexists _, _.
  split; [by apply traverse_known|].
  split; [by rewrite length_table, length_fetched|].
  intros i row (_ & _ & _ & reads & Hreads & Hd & Hm)%table_row.
  exists reads. split; [done|].
  split; [rewrite truediv_nonzero by lia; by rewrite Hd|].
  split; [exact Hd|].
  split; [eexists; split; [exact Hd|apply Qred_quotient; lia]|].
  split; [done|].
  split; [intros Hnil; rewrite Hm; unfold window_mapq; by rewrite Hnil|].
  split.
  { intros Hne. rewrite Hm. unfold window_mapq.
    destruct (primary reads) as [|read rest] eqn:Hp; [done|].
    eexists. split; [reflexivity|].
    rewrite length_fmap. apply Qred_quotient. cbn [length]. lia. }
  intros k Q R Hcount Hall.
  destruct (uniform_reads (primary reads) Q R Hall) as [Ht Hq].
  rewrite Hcount in Ht, Hq. rewrite <- Ht.
  split; [rewrite truediv_nonzero by lia; by rewrite Hd|].
  split; [exact Hd|].
  split; [eexists; split; [exact Hd|apply Qred_quotient; lia]|].
  intros Hpos. rewrite Hm. unfold window_mapq. rewrite Hq.
  by apply np_mean_replicate.
Qed.

Lemma depth_over_nominal_window_size_witness :
  ∃ rows w' row,
    traverse_bam_fetch sample_file "chrX" 300 fresh = (inr {| windows := rows |}, w') ∧
    rows !! 1%nat = Some row ∧
    WindowMetrics.depth row = Finite (2 # 3) ∧
    WindowMetrics.mapq row = Finite (inject_Z 30).
Proof.
  destruct (depth_over_nominal_window_size sample_file "chrX" fresh 1000 300)
    as (rows & w' & Hrun & Hlen & Hrows).
  - by vm_compute.
  - lia.
  - lia.
  - by vm_compute.
  - destruct (rows !! 1%nat) as [row|] eqn:Hrow.
    2:{ apply lookup_ge_None in Hrow. rewrite Hlen in Hrow. vm_compute in Hrow. lia. }
    destruct (Hrows 1%nat row Hrow) as (reads & Hreads & _ & _ & _ & _ & _ & _ & Huni).
    vm_compute in Hreads. injection Hreads as <-.
    destruct (Huni 2%nat 30 100) as (_ & Hd & _ & Hm).
    + reflexivity.
    + intros r Hr. vm_compute in Hr.
      apply elem_of_cons in Hr as [->|Hr]; [done|].
      apply elem_of_cons in Hr as [->|Hr]; [done|].
      by apply elem_of_nil in Hr.
    + exists rows, w', row.
      split; [exact Hrun|]. split; [exact Hrow|]. split; [exact Hd|apply Hm; lia].
Defined.

(** C5.  Records flagged secondary or supplementary take no part in the
    aggregation: the inner loop gives the same result on a list of records as
    on the records of that list that carry neither flag.  In the scan, a
    window for which only flagged records are fetched, however many, has
    depth 0 and an undefined mapping quality. *)
Theorem flagged_reads_are_excluded {St} (samfile : AlignmentFile St)
    (chrom : string) (w : world St) (L W : Z) :
  (get_length samfile chrom w).1 = inr L → 0 ≤ L → 0 < W →
  forallb lengths_known (fetched samfile chrom L W (handle w)) = true →
  (∀ reads total mapq,
     count_reads reads total mapq = count_reads (primary reads) total mapq) ∧
  ∃ rows w',
    traverse_bam_fetch samfile chrom W w = (inr {| windows := rows |}, w') ∧
    ∀ (i : nat) row reads,
      rows !! i = Some row →
      fetched samfile chrom L W (handle w) !! i = Some reads →
      (∀ r, r ∈ reads → is_secondary r = true ∨ is_supplementary r = true) →
      WindowMetrics.depth row = Finite 0 ∧ WindowMetrics.mapq row = NaN.
Proof.
  intros Hlen HL HW Hk. split; [apply count_reads_primary|].
  eexists _, _. split; [by apply traverse_known|].
  intros i row reads (_ & _ & _ & reads' & Hreads' & -> & ->)%table_row Hreads Hflag.
  assert (reads' = reads) as -> by congruence.
  apply window_metrics_empty. by apply primary_flagged.
Qed.

Lemma flagged_reads_are_excluded_witness :
  ∃ rows w' row,
    traverse_bam_fetch sample_file "chrX" 300 fresh = (inr {| windows := rows |}, w') ∧
    rows !! 2%nat = Some row ∧
    WindowMetrics.depth row = Finite 0 ∧ WindowMetrics.mapq row = NaN.
Proof.
  destruct (flagged_reads_are_excluded sample_file "chrX" fresh 1000 300)
    as (_ & rows & w' & Hrun & Hrows).
  - by vm_compute.
  - lia.
  - lia.
  - by vm_compute.
  - assert (Hrow : is_Some (rows !! 2%nat)).
    { vm_compute in Hrun. injection Hrun as <- _. by eexists. }
    destruct Hrow as [row Hrow].
    exists rows, w', row. split; [exact Hrun|]. split; [exact Hrow|].
    apply (Hrows 2%nat row [secondary_read; supplementary_read] Hrow).
    + by vm_compute.
    + intros r Hr.
      apply elem_of_cons in Hr as [->|Hr]; [by left|].
      apply elem_of_cons in Hr as [->|Hr]; [by right|].
      by apply elem_of_nil in Hr.
Defined.

(** C6.  A window without a record that counts is not an error.  The scan
    returns a table with a row for each of the [L // W + 1] windows, having
    queried every window and written every progress line, and the row of such
    a window has depth 0 and an undefined mapping quality.  On a file that
    yields no record at all the scan returns the full table, and every row has
    depth 0 and an undefined mapping quality. *)
Theorem empty_window_is_not_an_error {St} (samfile : AlignmentFile St)
    (chrom : string) (w : world St) (L W : Z) :
  (get_length samfile chrom w).1 = inr L → 0 ≤ L → 0 < W →
  (forallb lengths_known (fetched samfile chrom L W (handle w)) = true →
   ∃ rows w',
     traverse_bam_fetch samfile chrom W w = (inr {| windows := rows |}, w') ∧
     Z.of_nat (length rows) = L `div` W + 1 ∧
     trace w' = trace w ++ scan_trace chrom (L `div` W + 1) 0 (partition L W) ∧
     ∀ (i : nat) row reads,
       rows !! i = Some row →
       fetched samfile chrom L W (handle w) !! i = Some reads →
       primary reads = [] →
       WindowMetrics.depth row = Finite 0 ∧ WindowMetrics.mapq row = NaN) ∧
  ((∀ h c a b, (fetch samfile h c a b).1 = []) →
   ∃ rows w',
     traverse_bam_fetch samfile chrom W w = (inr {| windows := rows |}, w') ∧
     Z.of_nat (length rows) = L `div` W + 1 ∧
     ∀ row, row ∈ rows →
            WindowMetrics.depth row = Finite 0 ∧ WindowMetrics.mapq row = NaN).
Proof.
  intros Hlen HL HW.
  pose proof (num_windows_pos L W HL HW) as HN.
  assert (Hrows : ∀ (i : nat) row reads,
            table samfile chrom L W (handle w) !! i = Some row →
            fetched samfile chrom L W (handle w) !! i = Some reads →
            primary reads = [] →
            WindowMetrics.depth row = Finite 0 ∧ WindowMetrics.mapq row = NaN).
  { intros i row reads (_ & _ & _ & reads' & Hreads' & -> & ->)%table_row Hreads Hp.
    assert (reads' = reads) as -> by congruence.
    by apply window_metrics_empty. }
  split.
  - intros Hk. eexists _, _. split; [by apply traverse_known|].
    split; [rewrite length_table; unfold num_windows_of in *; lia|].
    split; [done|]. exact Hrows.
  - intros Hsilent.
    assert (Hnil : ∀ reads,
              reads ∈ fetched samfile chrom L W (handle w) → reads = []).
    { intros reads. by apply fetch_all_silent. }
    assert (Hk : forallb lengths_known (fetched samfile chrom L W (handle w)) = true).
    { apply forallb_forall. intros reads Hin%list_elem_of_In. by rewrite (Hnil reads). }
    eexists _, _. split; [by apply traverse_known|].
    split; [rewrite length_table; unfold num_windows_of in *; lia|].
    intros row [i Hrow]%list_elem_of_lookup.
    pose proof Hrow as (_ & _ & _ & reads & Hreads & _)%table_row.
    apply (Hrows i row reads Hrow Hreads).
    by rewrite (Hnil reads) by (by eapply list_elem_of_lookup_2).
Qed.

Lemma empty_window_is_not_an_error_witness :
  (∃ rows w',
     traverse_bam_fetch sample_file "chrX" 300 fresh = (inr {| windows := rows |}, w') ∧
     Z.of_nat (length rows) = 1000 `div` 300 + 1) ∧
  (∃ rows w',
     traverse_bam_fetch silent_file "chrX" 300 fresh = (inr {| windows := rows |}, w') ∧
     ∀ row, row ∈ rows →
            WindowMetrics.depth row = Finite 0 ∧ WindowMetrics.mapq row = NaN).
Proof.
  split.
  - destruct (empty_window_is_not_an_error sample_file "chrX" fresh 1000 300)
      as [Hgen _]; [by vm_compute|lia|lia|].
    destruct Hgen as (rows & w' & Hrun & Hn & _); [by vm_compute|].
    by exists rows, w'.
  - destruct (empty_window_is_not_an_error silent_file "chrX" fresh 1000 300)
      as [_ Hsilent]; [by vm_compute|lia|lia|].
    destruct Hsilent as (rows & w' & Hrun & _ & Hall); [done|].
    by exists rows, w'.
Defined.

(** C7.  A chromosome name that is not among the references of the file makes
    the length lookup, and so the whole scan, raise [KeyError] (a
    [LookupError]) in an untouched world: no region was queried, no progress
    line written, no table built.  A name that is present yields a length
    recorded for that name in the header, the one at the same position when
    the names of the header are distinct, again in an untouched world. *)
Theorem unknown_reference_aborts_scan {St} (samfile : AlignmentFile St)
    (chrom : string) (window_size : Z) (w : world St) :
  (chrom ∉ references samfile →
     get_length samfile chrom w = (inl (KeyError chrom), w) ∧
     traverse_bam_fetch samfile chrom window_size w = (inl (KeyError chrom), w)) ∧
  (∀ (i : nat) (L0 : Z),
     references samfile !! i = Some chrom → lengths samfile !! i = Some L0 →
     ∃ L,
       get_length samfile chrom w = (inr L, w) ∧
       (∃ j : nat,
          references samfile !! j = Some chrom ∧ lengths samfile !! j = Some L) ∧
       (NoDup (references samfile) → L = L0)).
Proof.
  split.
  - intros Habs. unfold traverse_bam_fetch, bind, get_length.
    by rewrite dict_zip_absent.
  - intros i L0 Hi HL.
    destruct (dict_zip_recorded _ _ i chrom L0 Hi HL) as (L & Hlook & Hrec).
    exists L. unfold get_length. rewrite Hlook. split; [done|]. split; [done|].
    intros Hnd. rewrite (dict_zip_present _ _ i chrom L0) in Hlook by done.
    congruence.
Qed.

Lemma unknown_reference_aborts_scan_witness :
  traverse_bam_fetch sample_file "chrY" 300 fresh = (inl (KeyError "chrY"), fresh) ∧
  get_length sample_file "chrX" fresh = (inr 1000, fresh).
Proof.
  split.
  - apply (unknown_reference_aborts_scan sample_file "chrY" 300 fresh).
    cbn. compute_done.
  - destruct (unknown_reference_aborts_scan sample_file "chrX" 300 fresh) as [_ Hpresent].
    destruct (Hpresent 1%nat 1000) as (L & Hrun & _ & Hsame); [reflexivity..|].
    rewrite Hrun, Hsame; [done|]. cbn. compute_done.
Defined.

(** C8.  On a file whose answers do not depend on what was asked of it
    before, the outcome of the scan (the table, or the exception) is the same
    from any two worlds; in particular a second scan, started in the world the
    first one left, returns what the first returned. *)
Theorem scan_twice_same_table {St} (samfile : AlignmentFile St)
    (chrom : string) (window_size : Z) :
  deterministic samfile →
  (∀ w1 w2 : world St,
     (traverse_bam_fetch samfile chrom window_size w1).1 =
     (traverse_bam_fetch samfile chrom window_size w2).1) ∧
  (∀ w : world St,
     let first := traverse_bam_fetch samfile chrom window_size w in
     let second := traverse_bam_fetch samfile chrom window_size first.2 in
     second.1 = first.1).
Proof.
  intros Hdet. pose proof (traverse_stateless samfile chrom window_size Hdet) as Hs.
  split; [exact Hs|]. intros w. cbn zeta. apply Hs.
Qed.

Lemma scan_twice_same_table_witness :
  deterministic sample_file ∧
  (traverse_bam_fetch sample_file "chrX" 300
     (traverse_bam_fetch sample_file "chrX" 300 fresh).2).1 =
  (traverse_bam_fetch sample_file "chrX" 300 fresh).1.
Proof.
  assert (Hdet : deterministic sample_file) by (intros h1 h2 c a b; reflexivity).
  split; [exact Hdet|].
  exact (proj2 (scan_twice_same_table sample_file "chrX" 300 Hdet) fresh).
Defined.

(** C9.  When [0 < L < W] there is one window: it starts at 0 and stops at
    [W], beyond the end of the chromosome; one region is queried and one
    progress line written.  With one window the counter, once incremented, is
    at least 1 and never equals [N - 1 = 0], so the cursor update adds [W]
    to the stop, whatever the last-window length is. *)
Theorem short_chromosome_single_window {St} (samfile : AlignmentFile St)
    (chrom : string) (w : world St) (L W : Z) :
  (get_length samfile chrom w).1 = inr L → 0 < L → L < W →
  forallb lengths_known (fetched samfile chrom L W (handle w)) = true →
  L `div` W + 1 = 1 ∧
  (∃ row w',
     traverse_bam_fetch samfile chrom W w = (inr {| windows := [row] |}, w') ∧
     WindowMetrics.start row = 0 ∧ WindowMetrics.stop row = W ∧
     L < WindowMetrics.stop row ∧
     trace w' = trace w ++ [Fetched chrom 0 W; Printed 1 1 chrom]) ∧
  (∀ last window_id s e,
     1 ≤ window_id →
     advance W (L `div` W + 1) last window_id s e = (s + W, e + W)).
Proof.
  intros Hlen HL HW Hk.
  assert (HN : L `div` W + 1 = 1) by (rewrite Z.div_small; lia).
  split; [done|]. split.
  - rewrite (traverse_known samfile chrom w L W) by (done || lia).
    unfold table, fetched, num_windows_of. rewrite HN, partition_single by lia.
    cbn [fetch_all fst snd].
    destruct (fetch samfile (handle w) chrom 0 W) as [reads h1].
    eexists _, _. split; [reflexivity|]. cbn. done.
  - intros last window_id s e Hid. unfold advance. rewrite HN. case_decide; [lia|done].
Qed.

Lemma short_chromosome_single_window_witness :
  ∃ row w',
    traverse_bam_fetch sample_file "chr1" 300 fresh = (inr {| windows := [row] |}, w') ∧
    WindowMetrics.start row = 0 ∧ WindowMetrics.stop row = 300.
Proof.
  destruct (short_chromosome_single_window sample_file "chr1" fresh 5 300)
    as (_ & (row & w' & Hrun & Hs & He & _) & _).
  - by vm_compute.
  - lia.
  - lia.
  - by vm_compute.
  - by exists row, w'.
Defined.

(** C10.  When a record that counts (neither secondary nor supplementary) of
    some window has no inferred query length, adding it to the running total
    raises [TypeError] at that record, whatever precedes and follows it and
    whatever was accumulated so far, and the scan as a whole ends in
    [TypeError]: it returns no table. *)
Theorem unknown_length_aborts_scan {St} (samfile : AlignmentFile St)
    (chrom : string) (w : world St) (L window_size : Z)
    (reads : list AlignedSegment) (read : AlignedSegment) :
  (get_length samfile chrom w).1 = inr L → 0 ≤ L → 0 < window_size →
  reads ∈ fetched samfile chrom L window_size (handle w) →
  read ∈ reads → retained read = true → infer_query_length read = None →
  (∀ total mapq, count_reads reads total mapq = inl TypeError) ∧
  (traverse_bam_fetch samfile chrom window_size w).1 = inl TypeError.
Proof.
  intros HL HL0 HW Hreads Hread Hr Hn.
  pose proof (lengths_known_false reads read Hread Hr Hn) as Hk.
  split.
  - intros total mapq. by apply count_reads_unknown.
  - apply (traverse_unknown samfile chrom w L window_size HL HL0 HW).
    apply not_true_is_false. intros Hall. rewrite forallb_forall in Hall.
    apply list_elem_of_In in Hreads. specialize (Hall _ Hreads). congruence.
Qed.

Lemma unknown_length_aborts_scan_witness :
  (traverse_bam_fetch broken_file "chrX" 300 fresh).1 = inl TypeError.
Proof.
  refine (proj2 (unknown_length_aborts_scan broken_file "chrX" fresh 1000 300
            [primary_read 30 100; unaligned_read; primary_read 30 100] unaligned_read
            _ _ _ _ _ _ _)).
  - by vm_compute.
  - lia.
  - lia.
  - vm_compute. apply list_elem_of_In. cbn. auto.
  - apply list_elem_of_In. cbn. auto.
  - reflexivity.
  - reflexivity.
Defined.

(** * Further properties of the scan *)

Lemma get_length_run {St} (samfile : AlignmentFile St) chrom (w : world St) L :
  (get_length samfile chrom w).1 = inr L → get_length samfile chrom w = (inr L, w).
Proof.
  unfold get_length, ret, raise.
  destruct (dict_zip (references samfile) (lengths samfile) !! chrom); cbn;
    intros Heq; by simplify_eq.
Qed.

(** X1.  A window size of zero makes the scan of a known chromosome raise
    [ZeroDivisionError] at the computation of the number of windows, before
    any region is queried. *)
Theorem zero_window_size_raises {St} (samfile : AlignmentFile St)
    (chrom : string) (w : world St) (L : Z) :
  (get_length samfile chrom w).1 = inr L →
  traverse_bam_fetch samfile chrom 0 w = (inl ZeroDivisionError, w).
Proof.
  intros HL%get_length_run. unfold traverse_bam_fetch, bind at 1. rewrite HL.
  unfold bind at 1. done.
Qed.

Lemma zero_window_size_raises_witness :
  traverse_bam_fetch sample_file "chrX" 0 fresh = (inl ZeroDivisionError, fresh).
Proof.
  apply (zero_window_size_raises sample_file "chrX" fresh 1000). by vm_compute.
Defined.

(** X2.  With a negative window size [W] and a chromosome of positive length
    [L] no region is ever queried.  When [L ≤ -W] the number of windows is 0
    and the remainder against it raises [ZeroDivisionError]; when [L > -W]
    the number of windows is negative and the scan returns an empty table. *)
Theorem negative_window_size {St} (samfile : AlignmentFile St)
    (chrom : string) (w : world St) (L W : Z) :
  (get_length samfile chrom w).1 = inr L → 0 < L → W < 0 →
  (L ≤ - W → traverse_bam_fetch samfile chrom W w = (inl ZeroDivisionError, w)) ∧
  (- W < L → traverse_bam_fetch samfile chrom W w = (inr {| windows := [] |}, w)).
Proof.
  intros HL%get_length_run HL0 HW.
  pose proof (Z.div_mod L W ltac:(lia)) as Hdm.
  pose proof (Z.mod_neg_bound L W HW) as Hmod.
  split; intros Hcmp.
  - assert (Hq : L `div` W = -1) by nia.
    unfold traverse_bam_fetch, bind at 1. rewrite HL.
    unfold bind at 1, floordiv. destruct (decide (W = 0)); [lia|]. cbn [lift ret].
    rewrite Hq. done.
  - assert (Hq : L `div` W + 1 < 0) by nia.
    unfold traverse_bam_fetch, bind at 1. rewrite HL.
    unfold bind at 1, floordiv. destruct (decide (W = 0)); [lia|]. cbn [lift ret].
    unfold bind at 1, pymod. destruct (decide (L `div` W + 1 = 0)); [lia|].
    cbn [lift ret]. rewrite Z2Nat.nonpos by lia. done.
Qed.

Lemma negative_window_size_witness :
  traverse_bam_fetch sample_file "chrX" (-1000) fresh = (inl ZeroDivisionError, fresh) ∧
  traverse_bam_fetch sample_file "chrX" (-300) fresh = (inr {| windows := [] |}, fresh).
Proof.
  split.
  - apply (negative_window_size sample_file "chrX" fresh 1000 (-1000));
      [by vm_compute|lia..].
  - apply (negative_window_size sample_file "chrX" fresh 1000 (-300));
      [by vm_compute|lia..].
Defined.

Lemma last_table_row {St} (samfile : AlignmentFile St) chrom L W h row :
  0 ≤ L → 0 < W →
  last (table samfile chrom L W h) = Some row →
  WindowMetrics.start row = L - L `mod` W ∧
  WindowMetrics.stop row = L - L `mod` W + last_window_len_of L W.
Proof.
  intros HL HW. pose proof (num_windows_pos L W HL HW) as HN.
  rewrite last_lookup, length_table.
  intros (_ & -> & -> & _)%table_row.
  replace (Z.of_nat (Nat.pred (Z.to_nat (num_windows_of L W))))
    with (num_windows_of L W - 1) by lia.
  pose proof (Z.div_mod L W ltac:(lia)) as Hdm.
  assert (Hstart : (num_windows_of L W - 1) * W = L - L `mod` W).
  { unfold num_windows_of. lia. }
  split; [done|].
  destruct (decide (num_windows_of L W = 1)) as [H1|H1].
  - rewrite H1 in *. cbn [Z.sub Z.add Z.opp Z.pos_sub] in *.
    rewrite window_stop_single.
    unfold last_window_len_of. cbn zeta. rewrite H1, Z.mod_1_r.
    case_decide; lia.
  - rewrite window_stop_final by lia. lia.
Qed.



(** X4.  The final window stops at [L - L % W + last_window_len], so it ends
    exactly at the end of the chromosome only when the last-window length
    equals [L % W], and it always ends after [L - W].  When the window size
    divides the chromosome length the final window starts at [L] and lies
    wholly beyond the end of the chromosome. *)
Theorem final_window_against_chromosome_end {St} (samfile : AlignmentFile St)
    (chrom : string) (w : world St) (L W : Z) :
  (get_length samfile chrom w).1 = inr L → 0 ≤ L → 0 < W →
  forallb lengths_known (fetched samfile chrom L W (handle w)) = true →
  let N := L `div` W + 1 in
  let last_window_len := if decide (L `mod` N = 0) then W else L `mod` N in
  ∃ rows w' row,
    traverse_bam_fetch samfile chrom W w = (inr {| windows := rows |}, w') ∧
    last rows = Some row ∧
    WindowMetrics.stop row = L - L `mod` W + last_window_len ∧
    (WindowMetrics.stop row = L ↔ last_window_len = L `mod` W) ∧
    L - W < WindowMetrics.stop row ∧
    (L `mod` W = 0 → WindowMetrics.start row = L ∧ L < WindowMetrics.stop row).
Proof.
  intros Hlen HL HW Hk N last_window_len.
  change last_window_len with (last_window_len_of L W). clear N last_window_len.
  pose proof (num_windows_pos L W HL HW) as HN.
  pose proof (Z.mod_pos_bound L W HW) as Hmod.
  pose proof (last_window_len_pos L W HL HW) as Hlast_pos.
  destruct (last (table samfile chrom L W (handle w))) as [row|] eqn:Hlast.
  2:{ apply last_None in Hlast. apply (f_equal length) in Hlast.
      rewrite length_table in Hlast. cbn in Hlast. lia. }
  eexists _, _, row. split; [by apply traverse_known|]. split; [done|].
  apply last_table_row in Hlast as [Hstart Hstop]; [|done..].
  rewrite Hstart, Hstop. repeat split; lia.
Qed.

Lemma final_window_against_chromosome_end_witness :
  ∃ rows w' row,
    traverse_bam_fetch sample_file "chrX" 500 fresh = (inr {| windows := rows |}, w') ∧
    last rows = Some row ∧
    WindowMetrics.start row = 1000 ∧ 1000 < WindowMetrics.stop row.
Proof.
  destruct (final_window_against_chromosome_end sample_file "chrX" fresh 1000 500)
    as (rows & w' & row & Hrun & Hlast & _ & _ & _ & Hdiv).
  - by vm_compute.
  - lia.
  - lia.
  - by vm_compute.
  - exists rows, w', row. split; [done|]. split; [done|]. by apply Hdiv.
Defined.

Lemma scan_trace_imap chrom N j ws :
  scan_trace chrom N j ws =
    concat (imap (λ (i : nat) (ab : Z * Z),
                    [Fetched chrom ab.1 ab.2; Printed (j + Z.of_nat i + 1) N chrom]) ws).
Proof.
  revert j. induction ws as [|ab ws IH]; intros j; [done|].
  cbn [scan_trace]. rewrite imap_cons. cbn [concat app].
  rewrite Z.add_0_r. do 2 f_equal. rewrite IH. f_equal.
  apply imap_ext. intros i ab' _. cbn. do 3 f_equal. lia.
Qed.

(** X5.  A scan that returns a table has queried exactly the regions of its
    rows, in row order and once each, and has written after each query the
    progress line of that window, numbered from 1 to the number of rows;
    every row carries the chromosome name that was asked for. *)
Theorem scan_queries_match_rows {St} (samfile : AlignmentFile St)
    (chrom : string) (w : world St) (L W : Z) :
  (get_length samfile chrom w).1 = inr L → 0 ≤ L → 0 < W →
  forallb lengths_known (fetched samfile chrom L W (handle w)) = true →
  ∃ rows w',
    traverse_bam_fetch samfile chrom W w = (inr {| windows := rows |}, w') ∧
    trace w' =
      trace w ++
      concat (imap (λ (i : nat) r,
                      [Fetched chrom (WindowMetrics.start r) (WindowMetrics.stop r);
                       Printed (Z.of_nat i + 1) (Z.of_nat (length rows)) chrom]) rows) ∧
    (∀ r, r ∈ rows → WindowMetrics.chrom r = chrom).
Proof.
  intros Hlen HL HW Hk. eexists _, _.
  split; [by apply traverse_known|].
  pose proof (num_windows_pos L W HL HW) as HN.
  split.
  - cbn [trace]. f_equal. rewrite scan_trace_imap, length_table, Z2Nat.id by lia.
    rewrite <- (table_bounds samfile chrom L W (handle w)), imap_fmap. done.
  - intros r [i (ab & reads & _ & _ & ->)%table_lookup]%list_elem_of_lookup. done.
Qed.

Lemma scan_queries_match_rows_witness :
  ∃ rows w',
    traverse_bam_fetch sample_file "chr1" 300 fresh = (inr {| windows := rows |}, w') ∧
    (∀ r, r ∈ rows → WindowMetrics.chrom r = "chr1").
Proof.
  destruct (scan_queries_match_rows sample_file "chr1" fresh 5 300)
    as (rows & w' & Hrun & _ & Hchrom).
  - by vm_compute.
  - lia.
  - lia.
  - by vm_compute.
  - by exists rows, w'.
Defined.

Lemma foldl_insert_last (keys : list string) (values : list Z) (d : gmap string Z)
    (i : nat) k v :
  keys !! i = Some k → values !! i = Some v → k ∉ drop (S i) keys →
  foldl (λ d kv, <[kv.1 := kv.2]> d) d (zip keys values) !! k = Some v.
Proof.
  revert values d i.
  induction keys as [|k0 keys IH]; intros [|v0 values] d [|i] Hk Hv Hlater;
    try done; cbn in *.
  - injection Hk as ->. injection Hv as ->.
    rewrite foldl_insert_absent; [apply lookup_insert_eq|].
    intros Hin. apply Hlater.
    apply list_elem_of_fmap in Hin as [[k' v'] [-> Hin]].
    by apply elem_of_zip_l in Hin.
  - by apply IH with (i := i).
Qed.

(** X6.  When a reference name occurs more than once in the header, the
    length lookup returns the length recorded with its last occurrence. *)
Theorem get_length_last_occurrence {St} (bamfile : AlignmentFile St)
    (chrom : string) (w : world St) (i : nat) (L : Z) :
  references bamfile !! i = Some chrom → lengths bamfile !! i = Some L →
  chrom ∉ drop (S i) (references bamfile) →
  get_length bamfile chrom w = (inr L, w).
Proof.
  intros Hk Hv Hlater. unfold get_length, dict_zip.
  by rewrite (foldl_insert_last _ _ _ i chrom L).
Qed.

Lemma get_length_last_occurrence_witness :
  get_length {| references := ["chrX"; "chrY"; "chrX"]; lengths := [1000; 50; 7];
                fetch := λ (h : nat) c a b, ([], h) |} "chrX" fresh
  = (inr 7, fresh).
Proof.
  apply get_length_last_occurrence with (i := 2%nat).
  - reflexivity.
  - reflexivity.
  - cbn. compute_done.
Defined.

Lemma window_body_unknown_run {St} (samfile : AlignmentFile St) chrom W N last v
    (w : world St) reads h1 :
  fetch samfile (handle w) chrom (start v) (end_ v) = (reads, h1) →
  lengths_known reads = false →
  window_body samfile chrom W N last v w =
    (inl TypeError,
     {| handle := h1; trace := trace w ++ [Fetched chrom (start v) (end_ v)] |}).
Proof.
  intros Hf Hk. unfold window_body, bind, do_fetch. rewrite Hf.
  by rewrite count_reads_unknown.
Qed.

Lemma for_range_fails_at {St} (samfile : AlignmentFile St) chrom W N last (n : nat) :
  W ≠ 0 →
  ∀ (i : nat) v (w : world St) bs h' ab reads,
    0 ≤ window_id v → window_id v + Z.of_nat n = N →
    (n ≠ 0%nat →
     start v = window_id v * W ∧ end_ v = window_stop W N last (window_id v)) →
    fetch_all samfile chrom (window_bounds W N last <$> seqZ (window_id v) (Z.of_nat n))
      (handle w) = (bs, h') →
    forallb lengths_known (take i bs) = true →
    (window_bounds W N last <$> seqZ (window_id v) (Z.of_nat n)) !! i = Some ab →
    bs !! i = Some reads → lengths_known reads = false →
    ∃ w',
      for_range n (window_body samfile chrom W N last) v w = (inl TypeError, w') ∧
      trace w' =
        trace w ++
        scan_trace chrom N (window_id v)
          (take i (window_bounds W N last <$> seqZ (window_id v) (Z.of_nat n))) ++
        [Fetched chrom ab.1 ab.2].
Proof.
  intros HW. induction n as [|n IH];
    intros i v w bs h' ab reads Hj HN Hcur Hf Hgood Hab Hreads Hbad; [done|].
  destruct Hcur as [Hs He]; [done|].
  rewrite seqZ_cons in * by lia.
  replace (Z.pred (Z.of_nat (S n))) with (Z.of_nat n) in * by lia.
  rewrite fmap_cons in *. cbn [fetch_all window_bounds fst snd] in Hf.
  rewrite <- Hs, <- He in Hf.
  destruct (fetch samfile (handle w) chrom (start v) (end_ v)) as [reads0 h1] eqn:Hf1.
  destruct (fetch_all _ _ _ h1) as [bs1 h2] eqn:Hf2.
  injection Hf as <- <-. cbn [for_range]. unfold bind at 1.
  destruct i as [|i].
  - cbn in Hab, Hreads. injection Hab as <-. injection Hreads as <-.
    rewrite (window_body_unknown_run _ _ _ _ _ _ _ _ _ Hf1 Hbad).
    eexists. split; [reflexivity|]. cbn. by rewrite Hs, He.
  - cbn in Hab, Hreads, Hgood. apply andb_prop in Hgood as [Hk0 Hgood].
    rewrite (window_body_known _ _ _ _ _ _ _ _ _ HW Hf1 Hk0).
    set (v1 := {| window_id := window_id v + 1 |}).
    set (w1 := {| handle := h1 |}).
    assert (Hcur1 : n ≠ 0%nat →
              start v1 = window_id v1 * W ∧
              end_ v1 = window_stop W N last (window_id v1)).
    { intros Hn. subst v1. cbn. rewrite Hs, He, window_stop_next by lia. done. }
    assert (Hf2' : fetch_all samfile chrom
                     (window_bounds W N last <$> seqZ (window_id v1) (Z.of_nat n))
                     (handle w1) = (bs1, h2)) by exact Hf2.
    assert (Hab' : (window_bounds W N last <$> seqZ (window_id v1) (Z.of_nat n)) !! i
                   = Some ab) by exact Hab.
    destruct (IH i v1 w1 bs1 h2 ab reads ltac:(subst v1; cbn; lia)
                ltac:(subst v1; cbn; lia) Hcur1 Hf2' Hgood Hab' Hreads Hbad)
      as (w' & Hrun & Htrace).
    exists w'. split; [exact Hrun|]. rewrite Htrace. subst v1 w1.
    cbn [trace window_id take scan_trace fst snd window_bounds]. unfold Z.succ.
    rewrite Hs, He, <- !app_assoc. done.
Qed.

(** X7.  The scan fails at the first window that holds a counted record
    without an inferred query length.  The windows before it have been
    queried and reported in turn, the failing window has been queried but not
    reported, and no later window is queried. *)
Theorem scan_fails_at_first_bad_window {St} (samfile : AlignmentFile St)
    (chrom : string) (w : world St) (L W : Z) (i : nat)
    (reads : list AlignedSegment) :
  (get_length samfile chrom w).1 = inr L → 0 ≤ L → 0 < W →
  forallb lengths_known (take i (fetched samfile chrom L W (handle w))) = true →
  fetched samfile chrom L W (handle w) !! i = Some reads →
  lengths_known reads = false →
  ∃ w' ab,
    traverse_bam_fetch samfile chrom W w = (inl TypeError, w') ∧
    partition L W !! i = Some ab ∧
    trace w' =
      trace w ++
      concat (imap (λ (j : nat) (ab : Z * Z),
                      [Fetched chrom ab.1 ab.2;
                       Printed (Z.of_nat j + 1) (L `div` W + 1) chrom])
                (take i (partition L W))) ++
      [Fetched chrom ab.1 ab.2].
Proof.
  intros HL%get_length_run HL0 HW Hgood Hreads Hbad.
  pose proof (num_windows_pos L W HL0 HW) as HN.
  assert (Hi : (i < length (partition L W))%nat).
  { rewrite length_partition, <- (length_fetched samfile chrom L W (handle w)).
    by eapply lookup_lt_Some. }
  destruct (lookup_lt_is_Some_2 _ _ Hi) as [ab Hab].
  unfold fetched in *.
  destruct (fetch_all samfile chrom (partition L W) (handle w)) as [bs h'] eqn:Hf.
  cbn [fst] in *.
  set (v0 := {| window_id := 0; start := 0; end_ := W; start_list := [];
                stop_list := []; depth_list := []; mapq_list := [] |}).
  destruct (for_range_fails_at samfile chrom W (num_windows_of L W)
              (last_window_len_of L W) (Z.to_nat (num_windows_of L W)) ltac:(lia)
              i v0 w bs h' ab reads) as (w' & Hrun & Htrace);
    cbn [window_id start end_ v0]; try done.
  - lia.
  - intros _. unfold window_stop. case_decide; lia.
  - rewrite Z2Nat.id by lia. exact Hf.
  - rewrite Z2Nat.id by lia. exact Hab.
  - exists w', ab. split; [|split; [done|]].
    + unfold traverse_bam_fetch, bind at 1. rewrite HL.
      unfold bind at 1, floordiv. destruct (decide (W = 0)); [lia|]. cbn [lift ret].
      fold (num_windows_of L W). unfold bind at 1, pymod.
      destruct (decide (num_windows_of L W = 0)); [lia|]. cbn [lift ret].
      fold (last_window_len_of L W). unfold bind at 1. fold v0. by rewrite Hrun.
    + rewrite Htrace. cbn [window_id v0]. rewrite Z2Nat.id by lia.
      fold (partition L W). rewrite scan_trace_imap. done.
Qed.

Lemma scan_fails_at_first_bad_window_witness :
  ∃ w',
    traverse_bam_fetch broken_file "chrX" 300 fresh = (inl TypeError, w') ∧
    trace w' = [Fetched "chrX" 0 300; Printed 1 4 "chrX"; Fetched "chrX" 300 600].
Proof.
  destruct (scan_fails_at_first_bad_window broken_file "chrX" fresh 1000 300 1%nat
              [primary_read 30 100; unaligned_read; primary_read 30 100])
    as (w' & ab & Hrun & Hab & Htrace).
  - by vm_compute.
  - lia.
  - lia.
  - by vm_compute.
  - by vm_compute.
  - by vm_compute.
  - exists w'. split; [exact Hrun|].
    vm_compute in Hab. injection Hab as <-. rewrite Htrace. by vm_compute.
Defined.

(** * Properties of the functions that drive external tools *)

Lemma global_subprocess : Tools.global "subprocess" = Tools.ret tt.
Proof. reflexivity. Qed.

Lemma global_pysam : Tools.global "pysam" = Tools.raise (Tools.NameError "pysam").
Proof. reflexivity. Qed.

Lemma bind_emit {B} a (k : unit → Tools.T B) tr :
  Tools.bind (Tools.emit a) k tr = k tt (tr ++ [a]).
Proof. reflexivity. Qed.

Lemma bind_ret {A B} (a : A) (k : A → Tools.T B) tr :
  Tools.bind (Tools.ret a) k tr = k a tr.
Proof. reflexivity. Qed.

Lemma bind_raise {A B} e (k : A → Tools.T B) tr :
  Tools.bind (Tools.raise e) k tr = (inl e, tr).
Proof. reflexivity. Qed.

Lemma bind_global_subprocess {B} (k : unit → Tools.T B) tr :
  Tools.bind (Tools.global "subprocess") k tr = k tt tr.
Proof. reflexivity. Qed.

Lemma bind_global_pysam {B} (k : unit → Tools.T B) tr :
  Tools.bind (Tools.global "pysam") k tr = (inl (Tools.NameError "pysam"), tr).
Proof. reflexivity. Qed.

Lemma bind_pg_line_of {B} (pg : Tools.pg_header) cl_string
    (k : option (list string) → Tools.T B) tr :
  Tools.bind (Tools.pg_line_of pg cl_string) k tr =
    match Tools.VN pg, Tools.ID pg with
    | None, _ => k None tr
    | Some vn, None => (inl (Tools.KeyError "ID"), tr)
    | Some vn, Some id =>
        k (Some ["@PG"; "ID:" +:+ id; "VN:" +:+ vn; "CL:" +:+ cl_string]) tr
    end.
Proof.
  unfold Tools.bind, Tools.pg_line_of.
  by destruct (Tools.VN pg) as [vn|], (Tools.ID pg) as [id|].
Qed.

Ltac tools_step :=
  repeat first
    [ rewrite bind_emit | rewrite bind_ret | rewrite bind_raise
    | rewrite bind_global_subprocess | rewrite bind_global_pysam ];
  cbn beta.

Lemma append_suffix_ne (s t : string) : t ≠ "" → s +:+ t ≠ s.
Proof.
  intros Ht. induction s as [|c s IH]; cbn; [done|].
  intros [= Heq]. by apply IH.
Qed.

(** X8.  [sambamba_merge] starts exactly two processes and returns
    [output_prefix] followed by [.merged.bam].  The first is [sambamba merge
    -t threads output_prefix files], where the input files are joined by
    spaces into one single argument, whatever their number; the second is
    [sambamba index] on the returned path.  The merge is thus told to write to
    [output_prefix] itself, which is never the path that is indexed and
    returned. *)
Theorem sambamba_merge_returns_other_path (sambamba_path : string)
    (bam_list : list string) (output_prefix : string) (threads : Z)
    (tr : list Tools.action) :
  Tools.sambamba_merge sambamba_path bam_list output_prefix threads tr =
    (inr (output_prefix +:+ ".merged.bam"),
     tr ++
     [Tools.Call [sambamba_path; "merge"; "-t"; pretty threads; output_prefix;
                  String.concat " " bam_list] None;
      Tools.Call [sambamba_path; "index"; output_prefix +:+ ".merged.bam"] None]) ∧
  output_prefix +:+ ".merged.bam" ≠ output_prefix.
Proof.
  split.
  - unfold Tools.sambamba_merge. tools_step. unfold Tools.ret.
    rewrite <- app_assoc. reflexivity.
  - by apply append_suffix_ne.
Qed.

(** X9.  The legacy [switch_sex_chromosomes_bam] never returns: the module
    does not import [pysam], so after the one shell command that extracts the
    header the function raises [NameError], with [cram] set or not.  No
    filtering, merging or indexing command is ever run. *)
Theorem legacy_switch_always_raises (os : Tools.env)
    (samtools_path bam_orig bam_new : string) (sex_chroms : list string)
    (output_directory output_prefix : string) (cram : bool)
    (tr : list Tools.action) :
  Tools.switch_sex_chromosomes_bam os samtools_path bam_orig bam_new sex_chroms
    output_directory output_prefix cram tr =
  (inl (Tools.NameError "pysam"),
   tr ++ [Tools.ShellCall (samtools_path +:+ " view -H " +:+ bam_orig +:+ " > "
                           +:+ output_directory +:+ "/header.sam")]).
Proof.
  unfold Tools.switch_sex_chromosomes_bam. tools_step.
  destruct cram; cbn [negb]; by tools_step.
Qed.

(** X10.  [switch_sex_chromosomes_bam_sambamba] never returns a path.  After
    the header has been extracted and the new file reheadered it raises
    [KeyError] when the [@PG] dictionary lacks ['CL'], [UnboundLocalError]
    for [pg_line] when it lacks ['VN'], [KeyError] when it has ['VN'] but no
    ['ID'], and otherwise appends the [@PG] line and raises [NameError] for
    [pysam], which the module does not import, with [cram] set or not.  No
    sambamba command is ever run. *)
Theorem switch_sambamba_never_returns (os : Tools.env)
    (samtools_path sambamba_path bam_orig bam_new : string)
    (sex_chroms : list string) (output_directory output_prefix : string)
    (threads : Z) (pg_header_dict : Tools.pg_header) (cram : bool)
    (tr : list Tools.action) :
  let header := output_directory +:+ "/header.sam" in
  let reheadered := output_directory +:+ "/reheadered.temp.new.bam" in
  let done_first :=
    [Tools.Open header "w";
     Tools.Call [samtools_path; "view"; "-H"; bam_orig] (Some header);
     Tools.Open reheadered "w";
     Tools.Call [samtools_path; "reheader"; "-P"; header; bam_new] (Some reheadered)] in
  Tools.switch_sex_chromosomes_bam_sambamba os samtools_path sambamba_path bam_orig
    bam_new sex_chroms output_directory output_prefix threads pg_header_dict cram tr =
  match Tools.CL pg_header_dict, Tools.VN pg_header_dict, Tools.ID pg_header_dict with
  | None, _, _ => (inl (Tools.KeyError "CL"), tr ++ done_first)
  | Some _, None, _ => (inl (Tools.UnboundLocalError "pg_line"), tr ++ done_first)
  | Some _, Some _, None => (inl (Tools.KeyError "ID"), tr ++ done_first)
  | Some cl, Some vn, Some id =>
      (inl (Tools.NameError "pysam"),
       tr ++ done_first ++
       [Tools.ShellCall
          ("echo '"
           +:+ Tools.join Tools.tab
                 ["@PG"; "ID:" +:+ id; "VN:" +:+ vn; "CL:" +:+ Tools.join " " cl]
           +:+ "' >> " +:+ header)])
  end.
Proof.
  cbn zeta. unfold Tools.switch_sex_chromosomes_bam_sambamba. tools_step.
  destruct (Tools.CL pg_header_dict) as [cl|]; cbn [Tools.getitem]; tools_step;
    [|by rewrite <- !app_assoc].
  rewrite bind_pg_line_of.
  destruct (Tools.VN pg_header_dict) as [vn|], (Tools.ID pg_header_dict) as [id|];
    tools_step; cbn [Tools.local]; tools_step; try by rewrite <- !app_assoc.
  destruct cram; cbn [negb]; tools_step; by rewrite <- !app_assoc.
Qed.

(** X11.  [switch_sex_chromosomes_bam_sambamba_output_temps] never returns a
    path either.  After extracting the header, reheadering and indexing the
    new file it raises [KeyError] for a missing ['CL'], [UnboundLocalError]
    for [pg_line] when ['VN'] is missing, [KeyError] for ['ID'] missing
    beside ['VN']; with a complete dictionary it appends the [@PG] line and
    then, with [cram] set, prints a notice and returns [None], and otherwise
    raises [NameError] for [pysam]. *)
Theorem switch_output_temps_never_returns_path (os : Tools.env)
    (samtools_path sambamba_path bam_orig bam_new : string)
    (sex_chroms : list string) (output_directory output_prefix : string)
    (threads : Z) (pg_header_dict : Tools.pg_header) (cram : bool)
    (tr : list Tools.action) :
  let header := output_directory +:+ "/header.sam" in
  let reheadered := output_directory +:+ "/reheadered.temp.new.bam" in
  let done_first :=
    [Tools.Open header "w";
     Tools.Call [samtools_path; "view"; "-H"; bam_orig] (Some header);
     Tools.Open reheadered "w";
     Tools.Call [samtools_path; "reheader"; "-P"; header; bam_new] (Some reheadered);
     Tools.Call [samtools_path; "index"; reheadered] None] in
  Tools.switch_sex_chromosomes_bam_sambamba_output_temps os samtools_path
    sambamba_path bam_orig bam_new sex_chroms output_directory output_prefix threads
    pg_header_dict cram tr =
  match Tools.CL pg_header_dict, Tools.VN pg_header_dict, Tools.ID pg_header_dict with
  | None, _, _ => (inl (Tools.KeyError "CL"), tr ++ done_first)
  | Some _, None, _ => (inl (Tools.UnboundLocalError "pg_line"), tr ++ done_first)
  | Some _, Some _, None => (inl (Tools.KeyError "ID"), tr ++ done_first)
  | Some cl, Some vn, Some id =>
      let echo :=
        Tools.ShellCall
          ("echo '"
           +:+ Tools.join Tools.tab
                 ["@PG"; "ID:" +:+ id; "VN:" +:+ vn; "CL:" +:+ Tools.join " " cl]
           +:+ "' >> " +:+ header) in
      if cram then
        (inr None,
         tr ++ done_first ++
         [echo; Tools.Print "This function does not currently handle cram files"])
      else (inl (Tools.NameError "pysam"), tr ++ done_first ++ [echo])
  end.
Proof.
  cbn zeta. unfold Tools.switch_sex_chromosomes_bam_sambamba_output_temps. tools_step.
  destruct (Tools.CL pg_header_dict) as [cl|]; cbn [Tools.getitem]; tools_step;
    [|by rewrite <- !app_assoc].
  rewrite bind_pg_line_of.
  destruct (Tools.VN pg_header_dict) as [vn|], (Tools.ID pg_header_dict) as [id|];
    tools_step; cbn [Tools.local]; tools_step; try by rewrite <- !app_assoc.
  destruct cram; cbn [negb]; tools_step; [unfold Tools.ret|]; by rewrite <- !app_assoc.
Qed.

Lemma for_each_run {A} (l : list A) (body : A → Tools.T unit)
    (f : A → list Tools.action) :
  (∀ x tr, body x tr = (inr tt, tr ++ f x)) →
  ∀ tr, Tools.for_each l body tr = (inr tt, tr ++ concat (f <$> l)).
Proof.
  intros Hbody. induction l as [|x l IH]; intros tr; cbn.
  - by rewrite app_nil_r.
  - unfold Tools.bind. rewrite Hbody, IH. by rewrite <- app_assoc.
Qed.

Lemma concat_nonblank {B} (h : string → list B) (rgs : list string) :
  concat ((λ rg, if bool_decide (rg ≠ "") then h rg else []) <$> rgs) =
  concat (h <$> List.filter (λ rg, bool_decide (rg ≠ "")) rgs).
Proof.
  induction rgs as [|rg rgs IH]; [done|]. cbn.
  destruct (bool_decide (rg ≠ "")); cbn; by rewrite IH.
Qed.

Lemma bam_to_fastq_run (os : Tools.env) (samtools_path repairsh_path bamfile : string)
    (single : bool) (output_directory output_prefix : string)
    (regions : list string) (tr : list Tools.action) :
  let dq := String (Ascii.ascii_of_nat 34) EmptyString in
  let list_command :=
    samtools_path +:+ " view -H " +:+ bamfile +:+ " | awk '$1==" +:+ dq +:+ "@RG"
    +:+ dq +:+ "' | awk '{for(i=1;i<=NF;i++){if (substr($i,1,2) ~ /ID/){print $i}}}'"
    +:+ " | cut -d':' -f 2 > " +:+ (output_directory +:+ "/" +:+ "full_rg.list") in
  let header_command :=
    samtools_path +:+ " view -H " +:+ bamfile +:+ " | awk '$1==" +:+ dq +:+ "@RG"
    +:+ dq +:+ "' > " +:+ (output_directory +:+ "/" +:+ "header_lines_rg.list") in
  Tools.bam_to_fastq os samtools_path repairsh_path bamfile single
    output_directory output_prefix regions tr =
  (inr [output_directory +:+ "/" +:+ "rg_fastq_key.list";
        output_directory +:+ "/" +:+ "header_lines_rg.list"],
   tr ++
   [Tools.ShellCall list_command; Tools.ShellCall header_command;
    Tools.Open (output_directory +:+ "/" +:+ "full_rg.list") "r";
    Tools.Open (output_directory +:+ "/" +:+ "rg_fastq_key.list") "w"] ++
   concat (Tools.read_group_actions samtools_path repairsh_path bamfile single
             output_directory output_prefix regions
           <$> Tools.read_groups os output_directory)).
Proof.
  cbn zeta. unfold Tools.bam_to_fastq. tools_step.
  unfold Tools.bind at 1.
  rewrite (for_each_run _ _
             (λ line,
                if bool_decide (Tools.str_strip os line ≠ "") then
                  Tools.read_group_actions samtools_path repairsh_path bamfile single
                    output_directory output_prefix regions (Tools.str_strip os line)
                else [])).
  - unfold Tools.ret. f_equal. rewrite <- !app_assoc. cbn [app]. f_equal.
    do 4 (apply (f_equal2 cons); [reflexivity|]).
    unfold Tools.read_groups. rewrite <- concat_nonblank, <- list_fmap_compose. done.
  - intros line tr0. destruct (bool_decide (Tools.str_strip os line ≠ "")).
    + tools_step. unfold Tools.read_group_actions.
      destruct single; cbn [negb]; tools_step; unfold Tools.emit;
        by rewrite <- !app_assoc.
    + unfold Tools.ret. by rewrite app_nil_r.
Qed.

Lemma shell_commands_app tr1 tr2 :
  Tools.shell_commands (tr1 ++ tr2) = Tools.shell_commands tr1 ++ Tools.shell_commands tr2.
Proof. apply omap_app. Qed.

Lemma writes_app tr1 tr2 : Tools.writes (tr1 ++ tr2) = Tools.writes tr1 ++ Tools.writes tr2.
Proof. apply omap_app. Qed.

Lemma omap_concat_fmap {A B C} (g : B → option C) (f : A → list B) (l : list A) :
  omap g (concat (f <$> l)) = concat ((λ x, omap g (f x)) <$> l).
Proof. induction l as [|x l IH]; [done|]. cbn. by rewrite omap_app, IH. Qed.

Lemma concat_singletons {A B} (b : B) (l : list A) :
  concat ((λ _, [b]) <$> l) = replicate (length l) b.
Proof. induction l as [|x l IH]; [done|]. cbn. by rewrite IH. Qed.

Lemma elem_of_concat_fmap {A B} (f : A → list B) (l : list A) (x : B) :
  x ∈ concat (f <$> l) → ∃ y, y ∈ l ∧ x ∈ f y.
Proof.
  induction l as [|y l IH]; cbn; [by intros ?%elem_of_nil|].
  intros [Hin|Hin]%elem_of_app.
  - exists y. split; [by left|done].
  - destruct (IH Hin) as (y' & Hy' & Hx). exists y'. split; [by right|done].
Qed.

(** X12.  In single-end mode [bam_to_fastq] never runs the repair script.
    The commands it hands to the shell are exactly these: the [samtools view
    -H] pipeline that lists the read group names, the one that lists the
    [@RG] header lines, and then, for each read group, one and the same
    extraction command, which does not name the read group and writes to the
    one file [temp.fastq]; the repair command is built and dropped.  The
    table it writes still names, for each read group, a fastq file that no
    command of the function produces.  The function returns the paths of the
    table and of the list of header lines. *)
Theorem single_end_repair_never_run (os : Tools.env)
    (samtools_path repairsh_path bamfile output_directory output_prefix : string)
    (regions : list string) (tr : list Tools.action) :
  let rgs := Tools.read_groups os output_directory in
  let table := output_directory +:+ "/" +:+ "rg_fastq_key.list" in
  let dq := String (Ascii.ascii_of_nat 34) EmptyString in
  let list_command :=
    samtools_path +:+ " view -H " +:+ bamfile +:+ " | awk '$1==" +:+ dq +:+ "@RG"
    +:+ dq +:+ "' | awk '{for(i=1;i<=NF;i++){if (substr($i,1,2) ~ /ID/){print $i}}}'"
    +:+ " | cut -d':' -f 2 > " +:+ (output_directory +:+ "/" +:+ "full_rg.list") in
  let header_command :=
    samtools_path +:+ " view -H " +:+ bamfile +:+ " | awk '$1==" +:+ dq +:+ "@RG"
    +:+ dq +:+ "' > " +:+ (output_directory +:+ "/" +:+ "header_lines_rg.list") in
  let extract :=
    samtools_path +:+ " view -b " +:+ bamfile +:+ " " +:+ String.concat " " regions
    +:+ " | " +:+ samtools_path +:+ " bam2fq -t -n - > " +:+ output_directory
    +:+ "/temp.fastq" in
  ∃ tr',
    Tools.bam_to_fastq os samtools_path repairsh_path bamfile true
      output_directory output_prefix regions tr =
    (inr [table; output_directory +:+ "/" +:+ "header_lines_rg.list"], tr') ∧
    Tools.shell_commands tr' =
      Tools.shell_commands tr ++ [list_command; header_command] ++
      replicate (length rgs) extract ∧
    Tools.writes tr' =
      Tools.writes tr ++
      concat ((λ rg,
                 [(output_directory +:+ "/" +:+ rg +:+ ".txt", rg);
                  (table,
                   rg +:+ Tools.tab
                   +:+ (output_directory +:+ "/" +:+ output_prefix +:+ "_" +:+ rg
                        +:+ ".fastq")
                   +:+ Tools.newline)]) <$> rgs) ∧
    (∀ argv stdout, Tools.Call argv stdout ∈ tr' → Tools.Call argv stdout ∈ tr).
Proof.
  cbn zeta.
  pose proof (bam_to_fastq_run os samtools_path repairsh_path bamfile true
                output_directory output_prefix regions tr) as Hrun.
  cbn zeta in Hrun. eexists. split; [exact Hrun|]. split; [|split].
  - rewrite !shell_commands_app. f_equal.
    change (Tools.shell_commands [Tools.ShellCall ?c1; Tools.ShellCall ?c2; _; _])
      with [c1; c2].
    f_equal. unfold Tools.shell_commands. rewrite omap_concat_fmap.
    apply concat_singletons.
  - rewrite !writes_app. f_equal.
    change (Tools.writes [Tools.ShellCall _; _; _; _]) with (@nil (string * string)).
    unfold Tools.writes. by rewrite omap_concat_fmap.
  - intros argv stdout Hin. apply elem_of_app in Hin as [Hin|Hin]; [done|].
    apply elem_of_app in Hin as [Hin|Hin].
    + repeat (apply elem_of_cons in Hin as [Hin|Hin]; [done|]).
      by apply elem_of_nil in Hin.
    + apply elem_of_concat_fmap in Hin as (rg & _ & Hin).
      cbn in Hin. repeat (apply elem_of_cons in Hin as [Hin|Hin]; [done|]).
      by apply elem_of_nil in Hin.
Qed.

(** X13.  In paired-end mode [bam_to_fastq] runs for each read group the
    same extraction command followed by a repair command.  The extraction
    names no read group and always writes [temp_1.fastq] and [temp_2.fastq],
    so the files repaired under the names of the different read groups are
    all drawn from the same reads.  The table gets one line of three fields
    for each read group, in the order of the list. *)
Theorem paired_end_same_extraction (os : Tools.env)
    (samtools_path repairsh_path bamfile output_directory output_prefix : string)
    (regions : list string) (tr : list Tools.action) :
  let rgs := Tools.read_groups os output_directory in
  let table := output_directory +:+ "/" +:+ "rg_fastq_key.list" in
  let extract :=
    samtools_path +:+ " view -b " +:+ bamfile +:+ " " +:+ Tools.join " " regions
    +:+ " | " +:+ samtools_path +:+ " bam2fq -1 " +:+ output_directory
    +:+ "/temp_1.fastq -2 " +:+ output_directory +:+ "/temp_2.fastq -t -n - " in
  let fastq rg suffix :=
    output_directory +:+ "/" +:+ output_prefix +:+ "_" +:+ rg +:+ suffix in
  let repair rg :=
    repairsh_path
    +:+ " in1=" +:+ (output_directory +:+ "/temp_1.fastq")
    +:+ " in2=" +:+ (output_directory +:+ "/temp_2.fastq")
    +:+ " out1=" +:+ fastq rg "_1.fastq"
    +:+ " out2=" +:+ fastq rg "_2.fastq"
    +:+ " overwrite=true" in
  ∃ tr' list_command header_command,
    Tools.bam_to_fastq os samtools_path repairsh_path bamfile false
      output_directory output_prefix regions tr =
    (inr [table; output_directory +:+ "/" +:+ "header_lines_rg.list"], tr') ∧
    Tools.shell_commands tr' =
      Tools.shell_commands tr ++ [list_command; header_command] ++
      concat ((λ rg, [extract; repair rg]) <$> rgs) ∧
    Tools.writes tr' =
      Tools.writes tr ++
      concat ((λ rg,
                 [(output_directory +:+ "/" +:+ rg +:+ ".txt", rg);
                  (table,
                   rg +:+ Tools.tab +:+ fastq rg "_1.fastq" +:+ Tools.tab
                   +:+ fastq rg "_2.fastq" +:+ Tools.newline)]) <$> rgs).
Proof.
  cbn zeta.
  pose proof (bam_to_fastq_run os samtools_path repairsh_path bamfile false
                output_directory output_prefix regions tr) as Hrun.
  cbn zeta in Hrun. eexists _, _, _. split; [exact Hrun|]. split.
  - rewrite !shell_commands_app. f_equal.
    change (Tools.shell_commands [Tools.ShellCall ?c1; Tools.ShellCall ?c2; _; _])
      with [c1; c2].
    f_equal. unfold Tools.shell_commands. by rewrite omap_concat_fmap.
  - rewrite !writes_app. f_equal.
    change (Tools.writes [Tools.ShellCall _; _; _; _]) with (@nil (string * string)).
    unfold Tools.writes. by rewrite omap_concat_fmap.
Qed.

(** The tool functions run on the sample environment: blank lines of the
    list of read groups are skipped and the names are stripped. *)
Example bam_to_fastq_sample :
  Tools.read_groups sample_env "out" = ["lane1"; "lane2"] ∧
  (Tools.bam_to_fastq sample_env "samtools" "repair.sh" "in.bam" true "out" "pre"
     ["chrX"; "chrY"] []).1 = inr ["out/rg_fastq_key.list"; "out/header_lines_rg.list"].
Proof. split; by vm_compute. Qed.

Example switch_output_temps_sample :
  (Tools.switch_sex_chromosomes_bam_sambamba_output_temps sample_env "samtools"
     "sambamba" "orig.bam" "new.bam" ["chrX"; "chrY"] "out" "pre" 4 full_pg_header
     true []).1 = inr None ∧
  (Tools.switch_sex_chromosomes_bam_sambamba_output_temps sample_env "samtools"
     "sambamba" "orig.bam" "new.bam" ["chrX"; "chrY"] "out" "pre" 4 full_pg_header
     false []).1 = inl (Tools.NameError "pysam").
Proof. split; by vm_compute. Qed.
